(** * eprintviews/aggregator.py: faceted aggregation of EPrint records

    A shallow embedding of [src/eprintviews/aggregator.py] and the
    properties of its facet operations.

    Modelling conventions.
    - A Python [str] is a Rocq [string]; the model covers ASCII text
      (case mapping and white space are defined on the ASCII range, a
      character above 127 is neither a letter nor a space).
    - A raised exception is the [Err] branch of [result]; only the
      exception class is recorded.
    - A [dict] is an association list in insertion order (Python 3.7+
      iterates a dict in insertion order).
    - [list.sort] is a stable sort that first calls the key function on
      every element, as CPython does.
    - [date.today()] is an explicit argument of [aggregate_latest].
    - A record's fields have the types of the data model: strings, a list
      of contributor objects for [creators], an object with an [items]
      list for [subjects]; any field may be absent. *)

From Stdlib Require Import String Ascii List ZArith Lia Bool.
From Stdlib Require Import Permutation Sorted DecimalString.
Import ListNotations.
Open Scope string_scope.

(* ================================================================= *)
(** ** Python primitives used by the module *)

Module Py.

Inductive exn : Type :=
| KeyError
| NameError
| ValueError
| OverflowError.

Inductive result (A : Type) : Type :=
| Ok (a : A)
| Err (e : exn).
Arguments Ok {A} a.
Arguments Err {A} e.

Definition bind {A B : Type} (m : result A) (f : A -> result B) : result B :=
  match m with
  | Ok a => f a
  | Err e => Err e
  end.

Definition is_err {A : Type} (m : result A) : bool :=
  match m with
  | Ok _ => false
  | Err _ => true
  end.

(** [for x in l: body], threading the loop's state; an exception raised
    by the body leaves the loop. *)
Fixpoint for_each {A S : Type} (body : A -> S -> result S) (l : list A) (s : S)
  : result S :=
  match l with
  | [] => Ok s
  | x :: r =>
      match body x s with
      | Ok s' => for_each body r s'
      | Err e => Err e
      end
  end.

(** [[f(x) for x in l]] for an [f] that may raise. *)
Fixpoint map_result {A B : Type} (f : A -> result B) (l : list A)
  : result (list B) :=
  match l with
  | [] => Ok []
  | x :: r =>
      match f x with
      | Ok y =>
          match map_result f r with
          | Ok ys => Ok (y :: ys)
          | Err e => Err e
          end
      | Err e => Err e
      end
  end.

(** *** str *)

Definition code (c : ascii) : nat := nat_of_ascii c.

Definition between (lo hi n : nat) : bool := Nat.leb lo n && Nat.leb n hi.

(** [str.isspace] on one ASCII character: TAB..CR, FS..US and SPACE. *)
Definition isspace (c : ascii) : bool :=
  between 9 13 (code c) || between 28 32 (code c).

(** C's [isspace] in the "C" locale ([Py_ISSPACE]), used by [int]. *)
Definition c_isspace (c : ascii) : bool :=
  between 9 13 (code c) || Nat.eqb (code c) 32.

Fixpoint lstrip (s : string) : string :=
  match s with
  | String c r => if isspace c then lstrip r else s
  | EmptyString => EmptyString
  end.

Fixpoint rstrip (s : string) : string :=
  match s with
  | EmptyString => EmptyString
  | String c r =>
      match rstrip r with
      | EmptyString => if isspace c then EmptyString else String c EmptyString
      | r' => String c r'
      end
  end.

(** [s.strip()] *)
Definition strip (s : string) : string := rstrip (lstrip s).

(** [s[0:n]] *)
Definition slice_to (n : nat) (s : string) : string := substring 0 n s.

Fixpoint map_chars (f : ascii -> ascii) (s : string) : string :=
  match s with
  | EmptyString => EmptyString
  | String c r => String (f c) (map_chars f r)
  end.

(** [s.replace(old, new)] for one-character [old] and [new]. *)
Definition replace (old new : ascii) (s : string) : string :=
  map_chars (fun c => if Ascii.eqb c old then new else c) s.

Definition upper_char (c : ascii) : ascii :=
  if between 97 122 (code c) then ascii_of_nat (code c - 32) else c.

Definition lower_char (c : ascii) : ascii :=
  if between 65 90 (code c) then ascii_of_nat (code c + 32) else c.

(** [s.capitalize()] *)
Definition capitalize (s : string) : string :=
  match s with
  | EmptyString => EmptyString
  | String c r => String (upper_char c) (map_chars lower_char r)
  end.

(** [s.split(sep)] for a one-character separator. *)
Fixpoint split (sep : ascii) (s : string) : list string :=
  match s with
  | EmptyString => [EmptyString]
  | String c r =>
      if Ascii.eqb c sep then EmptyString :: split sep r
      else
        match split sep r with
        | h :: t => String c h :: t
        | [] => [String c EmptyString]
        end
  end.

(** [sep.join(l)] *)
Definition join (sep : string) (l : list string) : string := String.concat sep l.

(** [a < b] and [a >= b] on [str]: lexicographic on code points. *)
Definition str_lt (a b : string) : bool := String.ltb a b.
Definition str_ge (a b : string) : bool := negb (String.ltb a b).

(** *** int(str)

    Base 10: optional white space, an optional sign, decimal digits with
    single underscores between them, optional white space, on ASCII text.
    CPython 3.11 and later refuse more than [int_max_str_digits] digits. *)

Definition int_max_str_digits : nat := 4300.

Definition digit_value (c : ascii) : option Z :=
  if between 48 57 (code c) then Some (Z.of_nat (code c - 48)) else None.

Definition underscore : ascii := "_"%char.

Fixpoint skip_c_space (s : string) : string :=
  match s with
  | String c r => if c_isspace c then skip_c_space r else s
  | EmptyString => EmptyString
  end.

(** The digit scan: value so far, number of digits, and the rest of the
    string; [None] on a doubled or trailing underscore. *)
Fixpoint scan_digits (s : string) (prev : ascii) (digits : nat) (acc : Z)
  : option (Z * nat * string) :=
  match s with
  | String c r =>
      if Ascii.eqb c underscore then
        if Ascii.eqb prev underscore then None
        else scan_digits r c digits acc
      else
        match digit_value c with
        | Some v => scan_digits r c (S digits) (10 * acc + v)%Z
        | None => if Ascii.eqb prev underscore then None
                  else Some (acc, digits, s)
        end
  | EmptyString =>
      if Ascii.eqb prev underscore then None else Some (acc, digits, s)
  end.

Definition int_unsigned (s : string) : result Z :=
  match s with
  | String c _ =>
      if Ascii.eqb c underscore then Err ValueError
      else
        match scan_digits s zero 0 0%Z with
        | Some (v, digits, rest) =>
            if Nat.eqb digits 0 then Err ValueError
            else if Nat.ltb int_max_str_digits digits then Err ValueError
            else
              match skip_c_space rest with
              | EmptyString => Ok v
              | String _ _ => Err ValueError
              end
        | None => Err ValueError
        end
  | EmptyString => Err ValueError
  end.

Definition int (s : string) : result Z :=
  match skip_c_space s with
  | String "+" r => int_unsigned r
  | String "-" r => bind (int_unsigned r) (fun v => Ok (- v)%Z)
  | s' => int_unsigned s'
  end.

(** *** list.sort(key=..., reverse=...)

    The keys of all elements are computed first; the decorated list is
    sorted with [<] only, stably; [reverse=True] reverses before and after
    the sort, which keeps equal elements in their original order. *)

Section Sort.
Context {A K : Type}.
Variable lt : K -> K -> bool.

(** Insert before the first element whose key is not smaller. *)
Fixpoint insert (x : K * A) (l : list (K * A)) : list (K * A) :=
  match l with
  | [] => [x]
  | y :: r => if lt (fst y) (fst x) then y :: insert x r else x :: y :: r
  end.

Fixpoint stable_sort (l : list (K * A)) : list (K * A) :=
  match l with
  | [] => []
  | x :: r => insert x (stable_sort r)
  end.

Definition sort (key : A -> result K) (reverse : bool) (l : list A)
  : result (list A) :=
  bind (map_result key l) (fun keys =>
    let kv := combine keys l in
    let kv := if reverse then rev kv else kv in
    let kv := stable_sort kv in
    let kv := if reverse then rev kv else kv in
    Ok (map snd kv)).
End Sort.

End Py.

Import Py.

Notation "x <- m ;; k" := (bind m (fun x => k))
  (at level 61, m at next level, right associativity).

(* ================================================================= *)
(** ** The part of [datetime] used by [aggregate_latest]

    [date], [timedelta(days=...)], [date - timedelta] and
    [date.isoformat()], following CPython's [Lib/_pydatetime.py]. *)

Module Datetime.

Local Open Scope Z_scope.

Record date : Type := mkdate { year : Z; month : Z; day : Z }.

Record timedelta : Type := mktimedelta { days : Z }.

Definition MAXORDINAL : Z := 3652059.

Definition DI400Y : Z := 146097.
Definition DI100Y : Z := 36524.
Definition DI4Y : Z := 1461.

Definition is_leap (y : Z) : bool :=
  (y mod 4 =? 0) && (negb (y mod 100 =? 0) || (y mod 400 =? 0)).

Definition DAYS_IN_MONTH (m : Z) : Z :=
  nth (Z.to_nat m) [-1; 31; 28; 31; 30; 31; 30; 31; 31; 30; 31; 30; 31] 0.

Definition DAYS_BEFORE_MONTH (m : Z) : Z :=
  nth (Z.to_nat m) [-1; 0; 31; 59; 90; 120; 151; 181; 212; 243; 273; 304; 334] 0.

Definition days_before_year (y : Z) : Z :=
  let y := y - 1 in
  y * 365 + y / 4 - y / 100 + y / 400.

Definition days_before_month (y m : Z) : Z :=
  DAYS_BEFORE_MONTH m + (if (2 <? m) && is_leap y then 1 else 0).

Definition ymd2ord (y m d : Z) : Z :=
  days_before_year y + days_before_month y m + d.

Definition ord2ymd (n : Z) : date :=
  let n := n - 1 in
  let n400 := n / DI400Y in
  let n := n mod DI400Y in
  let y := n400 * 400 + 1 in
  let n100 := n / DI100Y in
  let n := n mod DI100Y in
  let n4 := n / DI4Y in
  let n := n mod DI4Y in
  let n1 := n / 365 in
  let n := n mod 365 in
  let y := y + n100 * 100 + n4 * 4 + n1 in
  if (n1 =? 4) || (n100 =? 4) then mkdate (y - 1) 12 31
  else
    let leapyear := (n1 =? 3) && (negb (n4 =? 24) || (n100 =? 3)) in
    let m := Z.shiftr (n + 50) 5 in
    let preceding :=
      DAYS_BEFORE_MONTH m + (if (2 <? m) && leapyear then 1 else 0) in
    if n <? preceding then
      let m := m - 1 in
      let preceding :=
        preceding - (DAYS_IN_MONTH m + (if (m =? 2) && leapyear then 1 else 0)) in
      mkdate y m (n - preceding + 1)
    else mkdate y m (n - preceding + 1).

Definition toordinal (d : date) : Z := ymd2ord (year d) (month d) (day d).

(** [date + timedelta] *)
Definition date_add (d : date) (td : timedelta) : result date :=
  let o := toordinal d + days td in
  if (0 <? o) && (o <=? MAXORDINAL) then Ok (ord2ymd o)
  else Err OverflowError.

(** [date - timedelta] is [date + timedelta(-other.days)]. *)
Definition date_sub (d : date) (td : timedelta) : result date :=
  date_add d (mktimedelta (- days td)).

(** ["%0<width>d" % z] for [0 <= z]. *)
Definition zero_pad (width : nat) (z : Z) : string :=
  let s := NilZero.string_of_uint (N.to_uint (Z.to_N z)) in
  String.concat "" (repeat "0"%string (width - String.length s)) ++ s.

(** [d.isoformat()]: ["%04d-%02d-%02d"]. *)
Definition isoformat (d : date) : string :=
  zero_pad 4 (year d) ++ "-" ++ zero_pad 2 (month d) ++ "-" ++ zero_pad 2 (day d).

End Datetime.

Import Datetime.

(* ================================================================= *)
(** ** Data model *)

(** A contributor object of [obj['creators']]; each field may be absent. *)
Record creator : Type := mkcreator {
  c_id : option string;
  c_display_name : option string
}.

(** [obj['subjects']], whose ['items'] holds the subject codes. *)
Record subjects : Type := mksubjects {
  s_items : option (list string)
}.

(** An input record: every field is optional, [None] is an absent key. *)
Record record : Type := mkrecord {
  o_date : option string;
  o_eprint_id : option string;
  o_type : option string;
  o_creators : option (list creator);
  o_publication : option string;
  o_issn : option string;
  o_collection : option string;
  o_event_title : option string;
  o_event_location : option string;
  o_event_dates : option string;
  o_lastmod : option string;
  o_subjects : option subjects
}.

(** A group descriptor: the dict built per group.  ['key'], ['label'],
    ['count'] and ['objects'] are in every descriptor; [g_extra] holds the
    string-valued fields a facet adds (['year'], ['sort_name'], ...). *)
Record group : Type := mkgroup {
  g_key : string;
  g_label : string;
  g_count : nat;
  g_extra : list (string * string);
  g_objects : list record
}.

(** [o[name]] for the string-valued fields of a descriptor; [None] when
    [name] is not such a field. *)
Fixpoint assoc (name : string) (l : list (string * string)) : option string :=
  match l with
  | [] => None
  | (n, v) :: r => if String.eqb n name then Some v else assoc name r
  end.

Definition get_field (name : string) (o : group) : option string :=
  if String.eqb name "key" then Some (g_key o)
  else if String.eqb name "label" then Some (g_label o)
  else assoc name (g_extra o).

(** [obj[k]] on an optional field *)
Definition getitem {A : Type} (field : option A) : result A :=
  match field with
  | Some v => Ok v
  | None => Err KeyError
  end.

(** *** The accumulator dicts *)

Definition dict : Type := list (string * group).

(** [k in d] *)
Definition dict_in (k : string) (d : dict) : bool :=
  existsb (fun e => String.eqb (fst e) k) d.

(** [d[k]] *)
Fixpoint dict_get (k : string) (d : dict) : result group :=
  match d with
  | [] => Err KeyError
  | (k', g) :: r => if String.eqb k' k then Ok g else dict_get k r
  end.

(** [d[k] = g]: a new key goes last, an old key keeps its place. *)
Fixpoint dict_set (k : string) (g : group) (d : dict) : dict :=
  match d with
  | [] => [(k, g)]
  | (k', g') :: r =>
      if String.eqb k' k then (k', g) :: r else (k', g') :: dict_set k g r
  end.

(** [[d[key] for key in d]] *)
Definition dict_values (d : dict) : list group := map snd d.

Definition incr_count (g : group) : group :=
  mkgroup (g_key g) (g_label g) (g_count g + 1) (g_extra g) (g_objects g).

Definition append_object (obj : record) (g : group) : group :=
  mkgroup (g_key g) (g_label g) (g_count g) (g_extra g)
    (g_objects g ++ [obj])%list.

(** The two statements that end every scan step:
    [d[k]['count'] += 1] and [d[k]['objects'].append(obj)]. *)
Definition add_object (k : string) (obj : record) (d : dict) : result dict :=
  g <- dict_get k d ;;
  let d := dict_set k (incr_count g) d in
  g <- dict_get k d ;;
  Ok (dict_set k (append_object obj g) d).

(* ================================================================= *)
(** ** Utility methods *)

Definition slugify (s : string) : string :=
  replace "/" "_" (replace " " "_" s).

Definition get_date_year (obj : record) : string :=
  match o_date obj with
  | Some d => strip (slice_to 4 d)
  | None => ""
  end.

Definition get_eprint_id (obj : record) : string :=
  match o_eprint_id obj with
  | Some i => i
  | None => ""
  end.

Definition get_object_type (obj : record) : string :=
  match o_type obj with
  | Some t => t
  | None => ""
  end.

Fixpoint any_creator_id (cs : list creator) : bool :=
  match cs with
  | [] => false
  | c :: r =>
      match c_id c with
      | Some _ => true
      | None => any_creator_id r
      end
  end.

Definition has_creator_ids (obj : record) : result bool :=
  cs <- getitem (o_creators obj) ;;
  Ok (any_creator_id cs).

Definition make_label (s : string) : string :=
  let sep := "_"%char in
  join " " (map capitalize (split sep s)).

Definition get_sort_name (o : group) : string :=
  match get_field "sort_name" o with
  | Some v => v
  | None => ""
  end.

Definition get_sort_year (o : group) : string :=
  match get_field "year" o with
  | Some v => v
  | None => ""
  end.

Definition get_sort_subject (o : group) : string :=
  match get_field "subject_name" o with
  | Some v => v
  | None => ""
  end.

(** The second operand of [and] reads the name [publication], which is
    bound nowhere in the module: reaching it raises [NameError]. *)
Definition get_sort_publication (o : group) : result string :=
  match get_field "publication" o with
  | Some _ => Err NameError
  | None => Ok ""
  end.

Definition get_sort_collection (o : group) : string :=
  match get_field "collection" o with
  | Some v => v
  | None => ""
  end.

Definition get_sort_event (o : group) : string :=
  match get_field "event_title" o with
  | Some v => strip v
  | None => ""
  end.

Definition get_lastmod_date (o : record) : string :=
  match o_lastmod o with
  | Some l => slice_to 10 l
  | None => ""
  end.

Definition get_sort_lastmod (o : record) : string :=
  match o_lastmod o with
  | Some l => l
  | None => ""
  end.

Definition get_sort_issn (o : group) : string :=
  match get_field "issn" o with
  | Some v => v
  | None => ""
  end.

(* ================================================================= *)
(** ** class Aggregator *)

Record Aggregator : Type := mkAggregator {
  c_name : string;
  objs : list record
}.

(** The subject directory passed to [aggregate_subjects]:
    [subject_map.get_subject(code)] is a label or [None]. *)
Definition subject_map : Type := string -> option string.

(** [if not k in d: d[k] = g] *)
Definition set_if_absent (k : string) (g : group) (d : dict) : dict :=
  if negb (dict_in k d) then dict_set k g d else d.

Definition people_step (obj : record) (creator : creator) (people : dict)
  : result dict :=
  creator_id <- getitem (c_id creator) ;;
  creator_name <- getitem (c_display_name creator) ;;
  let people :=
    set_if_absent creator_id
      (mkgroup creator_id creator_name 0
         [("people_id", creator_id); ("sort_name", creator_name)] [])
      people in
  add_object creator_id obj people.

Definition aggregate_people (self : Aggregator) : result (list group) :=
  people <- for_each (fun obj people =>
      has_ids <- has_creator_ids obj ;;
      if (has_ids : bool) then
        creators <- getitem (o_creators obj) ;;
        for_each (people_step obj) creators people
      else Ok people) (objs self) [] ;;
  let people_list := dict_values people in
  sort str_lt (fun o => Ok (get_sort_name o)) false people_list.

Definition aggregate_person_az (self : Aggregator) := aggregate_people self.
Definition aggregate_person (self : Aggregator) := aggregate_people self.
Definition aggregate_author (self : Aggregator) := aggregate_people self.

Definition aggregate_year (self : Aggregator) : result (list group) :=
  years <- for_each (fun obj years =>
      match o_date obj with
      | Some d =>
          let year := strip (slice_to 4 d) in
          let years :=
            set_if_absent year (mkgroup year year 0 [("year", year)] []) years in
          add_object year obj years
      | None => Ok years
      end) (objs self) [] ;;
  let year_list := dict_values years in
  sort str_lt (fun o => Ok (get_sort_year o)) true year_list.

Definition aggregate_publication (self : Aggregator) : result (list group) :=
  publications <- for_each (fun obj publications =>
      let eprint_id := get_eprint_id obj in
      let year := get_date_year obj in
      match o_publication obj with
      | Some publication =>
          let key := slugify publication in
          let publications :=
            set_if_absent publication
              (mkgroup key publication 0 [("year", year)] []) publications in
          add_object publication obj publications
      | None => Ok publications
      end) (objs self) [] ;;
  let publication_list := dict_values publications in
  sort str_lt get_sort_publication false publication_list.

Definition aggregate_issn (self : Aggregator) : result (list group) :=
  issns <- for_each (fun obj issns =>
      let eprint_id := get_eprint_id obj in
      let year := get_date_year obj in
      match o_issn obj with
      | Some issn =>
          let issns :=
            set_if_absent issn (mkgroup issn issn 0 [("year", year)] []) issns in
          add_object issn obj issns
      | None => Ok issns
      end) (objs self) [] ;;
  let issn_list := dict_values issns in
  sort str_lt (fun o => Ok (get_sort_issn o)) false issn_list.

Definition aggregate_collection (self : Aggregator) : result (list group) :=
  collections <- for_each (fun obj collections =>
      let eprint_id := get_eprint_id obj in
      let year := get_date_year obj in
      match o_collection obj with
      | Some collection =>
          let key := slugify collection in
          let collections :=
            set_if_absent collection
              (mkgroup key collection 0 [("year", year)] []) collections in
          add_object collection obj collections
      | None => Ok collections
      end) (objs self) [] ;;
  let collection_list := dict_values collections in
  sort str_lt (fun o => Ok (get_sort_collection o)) false collection_list.

Definition event_title_of (obj : record) : string :=
  match o_event_title obj with
  | Some t => t
  | None => ""
  end.

Definition aggregate_event (self : Aggregator) : result (list group) :=
  events <- for_each (fun obj events =>
      let eprint_id := get_eprint_id obj in
      let year := get_date_year obj in
      let event_title := event_title_of obj in
      let event_location :=
        match o_event_location obj with Some l => l | None => "" end in
      let event_dates :=
        match o_event_dates obj with Some l => l | None => "" end in
      let events :=
        set_if_absent event_title
          (mkgroup (slugify event_title) event_title 0 [("year", year)] [])
          events in
      add_object event_title obj events) (objs self) [] ;;
  let event_list := dict_values events in
  sort str_lt (fun o => Ok (get_sort_event o)) false event_list.

Definition subjects_step (sm : subject_map) (obj : record) (subj : string)
  (subjects : dict) : result dict :=
  match sm subj with
  | Some subject_name =>
      let subjects :=
        set_if_absent subj
          (mkgroup subj subject_name 0
             [("subject_id", subj); ("subject_name", subject_name)] [])
          subjects in
      add_object subj obj subjects
  | None => Ok subjects
  end.

Definition aggregate_subjects (self : Aggregator) (sm : subject_map)
  : result (list group) :=
  subjects <- for_each (fun obj subjects =>
      let eprint_id := get_eprint_id obj in
      let year := get_date_year obj in
      match o_subjects obj with
      | Some sub =>
          items <- getitem (s_items sub) ;;
          for_each (subjects_step sm obj) items subjects
      | None => Ok subjects
      end) (objs self) [] ;;
  let subject_list := dict_values subjects in
  sort str_lt (fun o => Ok (get_sort_subject o)) false subject_list.

Definition aggregate_ids (self : Aggregator) : result (list group) :=
  ids <- for_each (fun obj ids =>
      let eprint_id := get_eprint_id obj in
      let ids :=
        set_if_absent eprint_id
          (mkgroup eprint_id eprint_id 0 [("eprint_id", eprint_id)] []) ids in
      add_object eprint_id obj ids) (objs self) [] ;;
  let ids_list := dict_values ids in
  sort Z.ltb (fun x => int (g_key x)) false ids_list.

Definition aggregate_types (self : Aggregator) : result (list group) :=
  types <- for_each (fun obj types =>
      let o_type := get_object_type obj in
      let label := make_label o_type in
      let types :=
        set_if_absent o_type (mkgroup o_type label 0 [("type", o_type)] [])
          types in
      add_object o_type obj types) (objs self) [] ;;
  let type_list := dict_values types in
  sort str_lt (fun x => Ok (g_key x)) false type_list.

(** [seven_days_ago = (today - timedelta(days = -7)).isoformat()] *)
Definition seven_days_ago (today : date) : result string :=
  let td := mktimedelta (-7) in
  d <- date_sub today td ;;
  Ok (isoformat d).

(** The window test of the scan. *)
Definition in_window (threshold : string) (obj : record) : bool :=
  let lastmod := get_lastmod_date obj in
  negb (String.eqb lastmod "") && str_ge lastmod threshold.

(** [today] is the value of [date.today()] at the call.  The new
    descriptor is assigned through the name [lastest], which is bound
    nowhere: the assignment raises [NameError]. *)
Definition aggregate_latest (today : date) (self : Aggregator)
  : result (list group) :=
  threshold <- seven_days_ago today ;;
  latest <- for_each (fun obj latest =>
      let lastmod := get_lastmod_date obj in
      if in_window threshold obj then
        let key := get_sort_lastmod obj in
        let year := get_date_year obj in
        latest <-
          (if negb (dict_in key latest) then Err NameError else Ok latest) ;;
        add_object lastmod obj latest
      else Ok latest) (objs self) [] ;;
  let latest_list := dict_values latest in
  sort str_lt (fun x => Ok (g_key x)) true latest_list.

(* ================================================================= *)
(** ** Definitions used to state the properties *)

(** *** One scan step, as a function *)

(** The group after [count += 1] and [objects.append(obj)]. *)
Definition tally (obj : record) (g : group) : group :=
  append_object obj (incr_count g).

(** What [set_if_absent] followed by [add_object] leaves in the dict. *)
Fixpoint upsert (k : string) (fresh : group) (obj : record) (d : dict) : dict :=
  match d with
  | [] => [(k, tally obj fresh)]
  | (k', g) :: r =>
      if String.eqb k' k then (k', tally obj g) :: r
      else (k', g) :: upsert k fresh obj r
  end.

(** The sum of the ['count'] fields of a dict's groups. *)
Definition total_count (d : dict) : nat :=
  list_sum (map (fun e => g_count (snd e)) d).

(** *** Invariants of the accumulator *)

(** ['count'] is [len] of ['objects']. *)
Definition counted (g : group) : Prop := g_count g = length (g_objects g).

(** Dict keys are distinct, every group is counted, and the descriptor's
    ['key'] is [keyf] of the dict key it is stored under. *)
Definition keyed (keyf : string -> string) (d : dict) : Prop :=
  NoDup (map fst d) /\
  Forall (fun e => counted (snd e) /\ g_key (snd e) = keyf (fst e)) d.

(** The descriptor's ['label'] is the dict key it is stored under. *)
Definition labelled (d : dict) : Prop :=
  Forall (fun e => g_label (snd e) = fst e) d.

(** *** The facet operations as one family *)

Inductive facet : Type :=
| People | PersonAZ | Person | Author
| Year | Publication | Issn | Collection | Event
| Subjects | Ids | Types | Latest.

(** A call of a facet operation: [today] is the date of the call and [sm]
    the subject directory; each operation reads what its source reads. *)
Definition call (f : facet) (today : date) (sm : subject_map)
  (self : Aggregator) : result (list group) :=
  match f with
  | People => aggregate_people self
  | PersonAZ => aggregate_person_az self
  | Person => aggregate_person self
  | Author => aggregate_author self
  | Year => aggregate_year self
  | Publication => aggregate_publication self
  | Issn => aggregate_issn self
  | Collection => aggregate_collection self
  | Event => aggregate_event self
  | Subjects => aggregate_subjects self sm
  | Ids => aggregate_ids self
  | Types => aggregate_types self
  | Latest => aggregate_latest today self
  end.

(** The facets whose ['key'] is the slug of the string they group on. *)
Definition slug_keyed (f : facet) : bool :=
  match f with
  | Publication | Collection | Event => true
  | _ => false
  end.

(** *** Records with one field, for the examples *)

Definition agg (l : list record) : Aggregator := mkAggregator "example" l.

Definition blank : record :=
  mkrecord None None None None None None None None None None None None.

Definition with_eprint_id (s : string) : record :=
  mkrecord None (Some s) None None None None None None None None None None.

Definition with_type (s : string) : record :=
  mkrecord None None (Some s) None None None None None None None None None.

Definition with_creators (cs : list creator) : record :=
  mkrecord None None None (Some cs) None None None None None None None None.

Definition with_publication (s : string) : record :=
  mkrecord None None None None (Some s) None None None None None None None.

Definition with_event_title (s : string) : record :=
  mkrecord None None None None None None None (Some s) None None None None.

Definition with_lastmod (s : string) : record :=
  mkrecord None None None None None None None None None None (Some s) None.

Definition with_date (s : string) : record :=
  mkrecord (Some s) None None None None None None None None None None None.

Definition no_subjects : subject_map := fun _ => None.

(** Key, label and count of every returned group, in order. *)
Definition summary (r : result (list group))
  : result (list (string * string * nat)) :=
  l <- r ;; Ok (map (fun g => (g_key g, g_label g, g_count g)) l).

(** *** Scans that group every record

    [aggregate_event], [aggregate_ids] and [aggregate_types] put every
    record in the group of a key computed from the record. *)

(** The dict such a scan builds from [d] over the records [l]. *)
Definition grouped (keyof : record -> string) (fresh : record -> group)
  (l : list record) (d : dict) : dict :=
  fold_left (fun d obj => upsert (keyof obj) (fresh obj) obj d) l d.

(** What holds of an entry of that dict: the descriptor's key and label
    come from the dict key, it is counted, and it holds only records of
    its key. *)
Definition entry_ok (keyof : record -> string) (keyf labelf : string -> string)
  (e : string * group) : Prop :=
  g_key (snd e) = keyf (fst e) /\
  g_label (snd e) = labelf (fst e) /\
  counted (snd e) /\
  (forall o, In o (g_objects (snd e)) -> keyof o = fst e).

(** The descriptors the three scans create for a new key. *)
Definition fresh_event (obj : record) : group :=
  mkgroup (slugify (event_title_of obj)) (event_title_of obj) 0
    [("year", get_date_year obj)] [].

Definition fresh_id (obj : record) : group :=
  mkgroup (get_eprint_id obj) (get_eprint_id obj) 0
    [("eprint_id", get_eprint_id obj)] [].

Definition fresh_type (obj : record) : group :=
  mkgroup (get_object_type obj) (make_label (get_object_type obj)) 0
    [("type", get_object_type obj)] [].

(** *** What [aggregate_latest] takes from the date of the call *)


(** *** Definitions for the further properties *)

(** The distinct elements of a list, in order of first occurrence. *)
Fixpoint first_seen (l : list string) : list string :=
  match l with
  | [] => []
  | k :: r => k :: filter (fun x => negb (String.eqb x k)) (first_seen r)
  end.

(** The value a scan groups a record on, and the records that have one. *)
Definition key_of (sel : record -> option string) (o : record) : string :=
  match sel o with
  | Some v => v
  | None => ""
  end.

Definition has (sel : record -> option string) (o : record) : bool :=
  match sel o with
  | Some _ => true
  | None => false
  end.

(** The records of [l] whose key is [k], in the order of [l]. *)
Definition with_key (keyof : record -> string) (k : string) (l : list record)
  : list record :=
  filter (fun o => String.eqb (keyof o) k) l.

(** The state of the scan after the records [done]. *)
Definition scanned (keyof : record -> string) (done : list record) (d : dict)
  : Prop :=
  NoDup (map fst d) /\
  (forall k g, In (k, g) d -> g_objects g = with_key keyof k done) /\
  (forall o, In o done -> In (keyof o) (map fst d)).

Definition add_key (ks : list string) (k : string) : list string :=
  if existsb (fun x => String.eqb x k) ks then ks else (ks ++ [k])%list.

Definition year_of (obj : record) : option string :=
  match o_date obj with
  | Some d => Some (strip (slice_to 4 d))
  | None => None
  end.

Definition fresh_year (obj : record) : group :=
  mkgroup (get_date_year obj) (get_date_year obj) 0
    [("year", get_date_year obj)] [].

Definition fresh_issn (obj : record) : group :=
  mkgroup (key_of o_issn obj) (key_of o_issn obj) 0
    [("year", get_date_year obj)] [].

Definition fresh_collection (obj : record) : group :=
  mkgroup (slugify (key_of o_collection obj)) (key_of o_collection obj) 0
    [("year", get_date_year obj)] [].

Definition fresh_publication (obj : record) : group :=
  mkgroup (slugify (key_of o_publication obj)) (key_of o_publication obj) 0
    [("year", get_date_year obj)] [].

Definition is_some {A : Type} (o : option A) : bool :=
  match o with
  | Some _ => true
  | None => false
  end.

(** A creator carrying both fields the people scan reads. *)
Definition creator_complete (c : creator) : bool :=
  is_some (c_id c) && is_some (c_display_name c).

(** The records the people scan gets through: [creators] is present and,
    if some creator has an id, every creator is complete. *)
Definition people_ok (o : record) : bool :=
  match o_creators o with
  | None => false
  | Some cs => if any_creator_id cs then forallb creator_complete cs else true
  end.

(** The records the subject scan gets through: [subjects], if present,
    has [items]. *)
Definition subjects_ok (o : record) : bool :=
  match o_subjects o with
  | Some sub => is_some (s_items sub)
  | None => true
  end.

(** The record [o] is in the group stored under [k]. *)
Definition in_group (o : record) (k : string) (d : dict) : Prop :=
  exists g, In (k, g) d /\ In o (g_objects g).

(** What holds of an entry of the people dict over the records [l]. *)
Definition people_entry (l : list record) (e : string * group) : Prop :=
  g_extra (snd e) = [("people_id", fst e); ("sort_name", g_label (snd e))] /\
  (forall o, In o (g_objects (snd e)) ->
     In o l /\
     exists cs c, o_creators o = Some cs /\ In c cs /\ c_id c = Some (fst e)) /\
  (exists o cs c,
     In o l /\ o_creators o = Some cs /\ In c cs /\
     c_id c = Some (fst e) /\ c_display_name c = Some (g_label (snd e))).

(** Every identified creator of [o] has [o] in the group of its id. *)
Definition people_covered (o : record) (d : dict) : Prop :=
  forall cs c k,
    o_creators o = Some cs -> In c cs -> c_id c = Some k -> in_group o k d.

(** What holds of an entry of the subject dict over the records [l] and
    the directory [sm]. *)
Definition subjects_entry (sm : subject_map) (l : list record)
  (e : string * group) : Prop :=
  sm (fst e) = Some (g_label (snd e)) /\
  g_extra (snd e) =
    [("subject_id", fst e); ("subject_name", g_label (snd e))] /\
  (forall o, In o (g_objects (snd e)) ->
     In o l /\
     exists sub items,
       o_subjects o = Some sub /\ s_items sub = Some items /\
       In (fst e) items).

(** Every resolved subject code of [o] has [o] in its group. *)
Definition subjects_covered (sm : subject_map) (o : record) (d : dict) : Prop :=
  forall sub items code name,
    o_subjects o = Some sub -> s_items sub = Some items -> In code items ->
    sm code = Some name -> in_group o code d.

(** The characters of a string. *)
Definition chars (s : string) : list ascii := list_ascii_of_string s.

(** [' '.join] of the pieces of [s], the first piece mapped by [first] and
    the others capitalized. *)
Definition label_from (first : string -> string) (s : string) : string :=
  join " "
    (match split "_" s with
     | h :: t => first h :: map capitalize t
     | [] => []
     end).

Definition with_subjects (items : list string) : record :=
  mkrecord None None None None None None None None None None None
    (Some (mksubjects (Some items))).

(** A directory that knows one code. *)
Definition physics_only : subject_map :=
  fun code => if String.eqb code "phys" then Some "Physics" else None.

(* ================================================================= *)
(** ** Lemmas on the primitives *)

Lemma bind_ok {A B : Type} (m : result A) (f : A -> result B) (b : B) :
  bind m f = Ok b -> exists a, m = Ok a /\ f a = Ok b.
Proof.
  destruct m as [a|e]; simpl; intros H; [exists a; auto | discriminate].
Qed.

(** A loop invariant kept by every step that returns holds when the loop
    returns. *)
Lemma for_each_invariant {A S : Type} (body : A -> S -> result S)
  (I : S -> Prop) (l : list A) :
  (forall x s s', In x l -> I s -> body x s = Ok s' -> I s') ->
  forall s s', I s -> for_each body l s = Ok s' -> I s'.
Proof.
  induction l as [|x r IH]; simpl; intros Hstep s s' Hs Hrun.
  - now inversion Hrun; subst.
  - destruct (body x s) as [s1|e] eqn:Hb; [|discriminate].
    apply IH with (s := s1); eauto.
Qed.

(** A loop whose steps all return is a left fold. *)
Lemma for_each_fold {A S : Type} (body : A -> S -> result S)
  (step : S -> A -> S) (l : list A) :
  (forall x s, body x s = Ok (step s x)) ->
  forall s, for_each body l s = Ok (fold_left step l s).
Proof.
  intros Hb; induction l as [|x r IH]; simpl; intros s; [reflexivity|].
  rewrite Hb. apply IH.
Qed.

Lemma map_result_pure {A B : Type} (g : A -> B) (l : list A) :
  map_result (fun x => Ok (g x)) l = Ok (map g l).
Proof.
  induction l as [|x r IH]; simpl; [reflexivity | now rewrite IH].
Qed.

Lemma map_result_Forall2 {A B : Type} (f : A -> result B) (l : list A) :
  forall ys, map_result f l = Ok ys -> Forall2 (fun x y => f x = Ok y) l ys.
Proof.
  induction l as [|x r IH]; simpl; intros ys H.
  - inversion H; constructor.
  - destruct (f x) as [y|] eqn:Hx; [|discriminate].
    destruct (map_result f r) as [ys'|] eqn:Hr; [|discriminate].
    inversion H; subst. constructor; auto.
Qed.

(** The comprehension raises exactly when the function raises on some
    element. *)
Lemma map_result_err_iff {A B : Type} (f : A -> result B) (l : list A) :
  is_err (map_result f l) = true <-> exists x, In x l /\ is_err (f x) = true.
Proof.
  induction l as [|x r IH]; simpl.
  - split; [discriminate | intros (x & [] & _)].
  - destruct (f x) as [y|e] eqn:Hx.
    + destruct (map_result f r) as [ys|e']; simpl in *.
      * split; [discriminate|].
        intros (z & [Hz|Hz] & He); [subst; rewrite Hx in He; discriminate|].
        apply IH; eauto.
      * split; [|reflexivity]. intros _.
        destruct (proj1 IH eq_refl) as (z & Hz & He). eauto.
    + simpl. split; [|reflexivity]. intros _. exists x. rewrite Hx. auto.
Qed.

Lemma map_result_ValueError {A B : Type} (f : A -> result B) (l : list A) (e0 : exn) :
  (forall x e, f x = Err e -> e = e0) ->
  forall e, map_result f l = Err e -> e = e0.
Proof.
  intros Hf; induction l as [|x r IH]; simpl; intros e H; [discriminate|].
  destruct (f x) as [y|e1] eqn:Hx.
  - destruct (map_result f r) as [ys|e2]; [discriminate|].
    inversion H; subst. now apply IH.
  - inversion H; subst. eapply Hf; eauto.
Qed.

Section SortFacts.
Context {A K : Type}.
Variable lt : K -> K -> bool.

Lemma insert_perm (x : K * A) (l : list (K * A)) :
  Permutation (insert lt x l) (x :: l).
Proof.
  induction l as [|y r IH]; simpl; [reflexivity|].
  destruct (lt (fst y) (fst x)); [|reflexivity].
  rewrite IH. apply perm_swap.
Qed.

Lemma stable_sort_perm (l : list (K * A)) : Permutation (stable_sort lt l) l.
Proof.
  induction l as [|x r IH]; simpl; [reflexivity|].
  rewrite insert_perm. now constructor.
Qed.

(** What [sort] returns: the keys were computed, and the result is the
    undecorated stable sort. *)
Lemma sort_ok (key : A -> result K) (reverse : bool) (l l' : list A) :
  sort lt key reverse l = Ok l' ->
  exists keys kv,
    map_result key l = Ok keys /\
    Permutation kv (combine keys l) /\
    l' = map snd kv /\
    (reverse = false -> kv = stable_sort lt (combine keys l)).
Proof.
  unfold sort. intros H. apply bind_ok in H as (keys & Hk & H).
  inversion H; subst; clear H.
  exists keys. eexists. split; [exact Hk|]. split; [|split; [reflexivity|]].
  - destruct reverse.
    + rewrite <- Permutation_rev, stable_sort_perm. symmetry. apply Permutation_rev.
    + apply stable_sort_perm.
  - intros ->. reflexivity.
Qed.

Lemma snd_combine (keys : list K) (l : list A) :
  length keys = length l -> map snd (combine keys l) = l.
Proof.
  revert l; induction keys as [|k ks IH]; intros [|x r]; simpl; intros H;
    try discriminate; [reflexivity|].
  f_equal. apply IH. now inversion H.
Qed.

Lemma sort_perm (key : A -> result K) (reverse : bool) (l l' : list A) :
  sort lt key reverse l = Ok l' -> Permutation l' l.
Proof.
  intros H. apply sort_ok in H as (keys & kv & Hk & Hp & -> & _).
  apply map_result_Forall2 in Hk. apply Forall2_length in Hk.
  rewrite <- (snd_combine keys l) by auto.
  now apply Permutation_map.
Qed.

Lemma sort_err_iff (key : A -> result K) (reverse : bool) (l : list A) :
  is_err (sort lt key reverse l) = true <-> is_err (map_result key l) = true.
Proof.
  unfold sort. destruct (map_result key l); simpl; tauto.
Qed.

Lemma sort_pure (g : A -> K) (reverse : bool) (l : list A) :
  exists l', sort lt (fun x => Ok (g x)) reverse l = Ok l' /\ Permutation l' l.
Proof.
  destruct (sort lt (fun x => Ok (g x)) reverse l) as [l'|e] eqn:H.
  - exists l'. split; [reflexivity|]. eapply sort_perm; eauto.
  - exfalso. unfold sort in H. rewrite map_result_pure in H. discriminate.
Qed.
End SortFacts.

(* ================================================================= *)
(** ** One scan step on the accumulator *)

Lemma add_object_cons_ne (k k' : string) (g : group) (obj : record) (d : dict) :
  String.eqb k' k = false ->
  add_object k obj ((k', g) :: d) =
  (d' <- add_object k obj d ;; Ok ((k', g) :: d')).
Proof.
  intros Hne. unfold add_object. simpl. rewrite Hne.
  destruct (dict_get k d) as [g0|e]; simpl; rewrite ?Hne; [|reflexivity].
  simpl. rewrite ?Hne.
  destruct (dict_get k (dict_set k (incr_count g0) d)) as [g1|e]; simpl;
    rewrite ?Hne; reflexivity.
Qed.

Lemma add_object_present (k : string) (g : group) (obj : record) (d : dict) :
  add_object k obj ((k, g) :: d) = Ok ((k, tally obj g) :: d).
Proof.
  unfold add_object. simpl. rewrite String.eqb_refl. simpl.
  now rewrite String.eqb_refl.
Qed.

Lemma scan_step (k : string) (fresh : group) (obj : record) (d : dict) :
  add_object k obj (set_if_absent k fresh d) = Ok (upsert k fresh obj d).
Proof.
  induction d as [|[k' g] r IH].
  - unfold set_if_absent. simpl. apply add_object_present.
  - unfold set_if_absent in *. simpl.
    destruct (String.eqb k' k) eqn:Hk; simpl.
    + apply String.eqb_eq in Hk; subst. apply add_object_present.
    + destruct (negb (dict_in k r));
        rewrite add_object_cons_ne by assumption; now rewrite IH.
Qed.

Lemma dict_in_true (k : string) (d : dict) :
  dict_in k d = true <-> In k (map fst d).
Proof.
  unfold dict_in. rewrite existsb_exists, in_map_iff. split.
  - intros ([k' g] & Hin & Heq). apply String.eqb_eq in Heq. simpl in *. subst.
    exists (k, g). auto.
  - intros ([k' g] & Heq & Hin). simpl in *. subst.
    exists (k, g). split; [auto | apply String.eqb_refl].
Qed.

Lemma upsert_keys (k : string) (fresh : group) (obj : record) (d : dict) :
  map fst (upsert k fresh obj d) =
  if dict_in k d then map fst d else (map fst d ++ [k])%list.
Proof.
  induction d as [|[k' g] r IH]; simpl; [reflexivity|].
  unfold dict_in in *. simpl.
  destruct (String.eqb k' k); simpl; [reflexivity|].
  rewrite IH. now destruct (existsb _ r).
Qed.

Lemma upsert_NoDup (k : string) (fresh : group) (obj : record) (d : dict) :
  NoDup (map fst d) -> NoDup (map fst (upsert k fresh obj d)).
Proof.
  intros Hd. rewrite upsert_keys.
  destruct (dict_in k d) eqn:Hin; [assumption|].
  apply NoDup_app; [assumption | repeat constructor; intros [] | ].
  intros x Hx [<-|[]].
  apply dict_in_true in Hx. congruence.
Qed.

(** An entry after the step is an old entry, or the tallied entry of [k]. *)
Lemma upsert_In (k : string) (fresh : group) (obj : record) (d : dict)
  (k1 : string) (g1 : group) :
  In (k1, g1) (upsert k fresh obj d) ->
  In (k1, g1) d \/
  (k1 = k /\ exists g, (In (k, g) d \/ g = fresh) /\ g1 = tally obj g).
Proof.
  induction d as [|[k' g] r IH]; simpl.
  - intros [H|[]]. inversion H; subst. right. eauto.
  - destruct (String.eqb k' k) eqn:Hk; simpl.
    + apply String.eqb_eq in Hk; subst.
      intros [H|H]; [|auto]. inversion H; subst. right.
      split; [reflexivity|]. exists g. split; [left; now left | reflexivity].
    + intros [H|H]; [auto|].
      destruct (IH H) as [?|(-> & g0 & [?|?] & ->)]; [auto| |].
      * right. split; [reflexivity|]. exists g0. split; [left; now right | reflexivity].
      * right. split; [reflexivity|]. exists g0. split; [now right | reflexivity].
Qed.

Lemma upsert_Forall (P : string * group -> Prop) (k : string) (fresh : group)
  (obj : record) (d : dict) :
  Forall P d ->
  (forall g, P (k, g) -> P (k, tally obj g)) ->
  P (k, tally obj fresh) ->
  Forall P (upsert k fresh obj d).
Proof.
  intros Hd Hstep Hfresh. rewrite Forall_forall in *.
  intros [k1 g1] Hin.
  apply upsert_In in Hin as [Hin|(-> & g & [Hin| ->] & ->)]; auto.
Qed.

(** The record just scanned is in the group of its key. *)
Lemma upsert_has (k : string) (fresh : group) (obj : record) (d : dict) :
  exists g, In (k, g) (upsert k fresh obj d) /\ In obj (g_objects g).
Proof.
  induction d as [|[k' g] r IH]; simpl.
  - eexists; split; [left; reflexivity|]. simpl. apply in_or_app; simpl; auto.
  - destruct (String.eqb k' k) eqn:Hk.
    + apply String.eqb_eq in Hk; subst.
      eexists; split; [left; reflexivity|]. simpl. apply in_or_app; simpl; auto.
    + destruct IH as (g0 & Hin & Ho). exists g0. simpl; auto.
Qed.

(** Records grouped earlier stay in the group of their key. *)
Lemma upsert_keeps (k : string) (fresh : group) (obj : record) (d : dict)
  (k1 : string) (g1 : group) (o : record) :
  In (k1, g1) d -> In o (g_objects g1) ->
  exists g, In (k1, g) (upsert k fresh obj d) /\ In o (g_objects g).
Proof.
  induction d as [|[k' g] r IH]; simpl; [intros []|].
  intros [H|H] Ho.
  - inversion H; subst.
    destruct (String.eqb k1 k).
    + eexists; split; [left; reflexivity|]. simpl. apply in_or_app; auto.
    + exists g1; simpl; auto.
  - destruct (String.eqb k' k).
    + exists g1; simpl; auto.
    + destruct (IH H Ho) as (g0 & ? & ?). exists g0; simpl; auto.
Qed.

Lemma upsert_total_count (k : string) (fresh : group) (obj : record) (d : dict) :
  g_count fresh = 0 ->
  total_count (upsert k fresh obj d) = S (total_count d).
Proof.
  intros Hf. unfold total_count.
  induction d as [|[k' g] r IH]; simpl.
  - rewrite Hf. reflexivity.
  - destruct (String.eqb k' k); simpl; [lia|]. rewrite IH. lia.
Qed.

(* ================================================================= *)
(** ** Invariants of the accumulator *)

Lemma keyed_nil (keyf : string -> string) : keyed keyf [].
Proof. split; constructor. Qed.

Lemma labelled_nil : labelled [].
Proof. constructor. Qed.

Lemma counted_tally (obj : record) (g : group) : counted g -> counted (tally obj g).
Proof.
  unfold counted, tally; simpl. intros ->. rewrite length_app. simpl. lia.
Qed.

Lemma keyed_upsert (keyf : string -> string) (k : string) (fresh : group)
  (obj : record) (d : dict) :
  keyed keyf d ->
  g_count fresh = 0 -> g_objects fresh = [] -> g_key fresh = keyf k ->
  keyed keyf (upsert k fresh obj d).
Proof.
  intros [Hnd Hall] Hc Ho Hk. split; [now apply upsert_NoDup|].
  apply upsert_Forall; simpl; auto.
  - intros g [Hg Hkey]. split; [now apply counted_tally | exact Hkey].
  - split; [|exact Hk]. apply counted_tally. unfold counted. now rewrite Hc, Ho.
Qed.

Lemma labelled_upsert (k : string) (fresh : group) (obj : record) (d : dict) :
  labelled d -> g_label fresh = k -> labelled (upsert k fresh obj d).
Proof.
  intros Hd Hl. apply upsert_Forall; simpl; auto.
Qed.

Lemma keyed_step (keyf : string -> string) (k : string) (fresh : group)
  (obj : record) (d d' : dict) :
  keyed keyf d ->
  g_count fresh = 0 -> g_objects fresh = [] -> g_key fresh = keyf k ->
  add_object k obj (set_if_absent k fresh d) = Ok d' ->
  keyed keyf d'.
Proof.
  intros Hd Hc Ho Hk H. rewrite scan_step in H. inversion H; subst.
  now apply keyed_upsert.
Qed.

Lemma labelled_step (k : string) (fresh : group) (obj : record) (d d' : dict) :
  labelled d -> g_label fresh = k ->
  add_object k obj (set_if_absent k fresh d) = Ok d' ->
  labelled d'.
Proof.
  intros Hd Hl H. rewrite scan_step in H. inversion H; subst.
  now apply labelled_upsert.
Qed.

(** From the dict to the returned list: a facet returns a permutation of
    the dict's values. *)
Lemma keyed_values (d : dict) (l : list group) :
  keyed (fun k => k) d -> Permutation l (dict_values d) ->
  Forall counted l /\ NoDup (map g_key l).
Proof.
  intros [Hnd Hall] Hp. unfold dict_values in Hp. split.
  - eapply Permutation_Forall; [symmetry; exact Hp|].
    apply Forall_map. eapply Forall_impl; [|exact Hall]. now intros e [? _].
  - eapply Permutation_NoDup; [symmetry; apply Permutation_map; exact Hp|].
    rewrite map_map.
    replace (map (fun e => g_key (snd e)) d) with (map fst d); [assumption|].
    apply map_ext_Forall. eapply Forall_impl; [|exact Hall].
    intros e [_ He]. now rewrite He.
Qed.

Lemma slug_keyed_values (d : dict) (l : list group) :
  keyed slugify d -> labelled d -> Permutation l (dict_values d) ->
  Forall counted l /\ NoDup (map g_label l) /\
  Forall (fun g => g_key g = slugify (g_label g)) l.
Proof.
  intros [Hnd Hall] Hlab Hp. unfold dict_values in Hp. repeat split.
  - eapply Permutation_Forall; [symmetry; exact Hp|].
    apply Forall_map. eapply Forall_impl; [|exact Hall]. now intros e [? _].
  - eapply Permutation_NoDup; [symmetry; apply Permutation_map; exact Hp|].
    rewrite map_map.
    replace (map (fun e => g_label (snd e)) d) with (map fst d); [assumption|].
    apply map_ext_Forall. eapply Forall_impl; [|exact Hlab].
    intros e He. now rewrite He.
  - eapply Permutation_Forall; [symmetry; exact Hp|].
    apply Forall_map. unfold labelled in Hlab. rewrite Forall_forall in *.
    intros e He. destruct (Hall e He) as [_ Hk]. now rewrite Hk, (Hlab e He).
Qed.

(** *** The scans keep the invariants *)

Ltac scan_invariant :=
  match goal with
  | H : add_object _ _ (set_if_absent _ _ _) = Ok _ |- keyed _ _ =>
      eapply keyed_step; [| | | |exact H]; auto
  | H : add_object _ _ (set_if_absent _ _ _) = Ok _ |- labelled _ =>
      eapply labelled_step; [| |exact H]; auto
  | H : Ok _ = Ok _ |- _ => inversion H; subst; assumption
  end.

Lemma people_scan (self : Aggregator) (l : list group) :
  aggregate_people self = Ok l ->
  exists d, keyed (fun k => k) d /\ Permutation l (dict_values d).
Proof.
  unfold aggregate_people. intros H. apply bind_ok in H as (d & Hscan & Hsort).
  exists d. split; [|eapply sort_perm; eauto].
  revert Hscan. apply for_each_invariant; [|apply keyed_nil].
  intros obj s s' _ Hs Hb.
  apply bind_ok in Hb as ([|] & _ & Hb); [|scan_invariant].
  apply bind_ok in Hb as (cs & _ & Hb).
  revert Hb. apply for_each_invariant; [|assumption].
  clear. intros c s s' _ Hs Hb. unfold people_step in Hb.
  apply bind_ok in Hb as (cid & _ & Hb). apply bind_ok in Hb as (cname & _ & Hb).
  scan_invariant.
Qed.

Lemma year_scan (self : Aggregator) (l : list group) :
  aggregate_year self = Ok l ->
  exists d, keyed (fun k => k) d /\ Permutation l (dict_values d).
Proof.
  unfold aggregate_year. intros H. apply bind_ok in H as (d & Hscan & Hsort).
  exists d. split; [|eapply sort_perm; eauto].
  revert Hscan. apply for_each_invariant; [|apply keyed_nil].
  intros obj s s' _ Hs Hb. destruct (o_date obj); scan_invariant.
Qed.

Lemma issn_scan (self : Aggregator) (l : list group) :
  aggregate_issn self = Ok l ->
  exists d, keyed (fun k => k) d /\ Permutation l (dict_values d).
Proof.
  unfold aggregate_issn. intros H. apply bind_ok in H as (d & Hscan & Hsort).
  exists d. split; [|eapply sort_perm; eauto].
  revert Hscan. apply for_each_invariant; [|apply keyed_nil].
  intros obj s s' _ Hs Hb. destruct (o_issn obj); scan_invariant.
Qed.

Lemma subjects_scan (self : Aggregator) (sm : subject_map) (l : list group) :
  aggregate_subjects self sm = Ok l ->
  exists d, keyed (fun k => k) d /\ Permutation l (dict_values d).
Proof.
  unfold aggregate_subjects. intros H. apply bind_ok in H as (d & Hscan & Hsort).
  exists d. split; [|eapply sort_perm; eauto].
  revert Hscan. apply for_each_invariant; [|apply keyed_nil].
  intros obj s s' _ Hs Hb. destruct (o_subjects obj); [|scan_invariant].
  apply bind_ok in Hb as (items & _ & Hb).
  revert Hb. apply for_each_invariant; [|assumption].
  clear. intros subj s s' _ Hs Hb. unfold subjects_step in Hb.
  destruct (sm subj); scan_invariant.
Qed.

Lemma ids_scan (self : Aggregator) (l : list group) :
  aggregate_ids self = Ok l ->
  exists d, keyed (fun k => k) d /\ Permutation l (dict_values d).
Proof.
  unfold aggregate_ids. intros H. apply bind_ok in H as (d & Hscan & Hsort).
  exists d. split; [|eapply sort_perm; eauto].
  revert Hscan. apply for_each_invariant; [|apply keyed_nil].
  intros obj s s' _ Hs Hb. scan_invariant.
Qed.

Lemma types_scan (self : Aggregator) (l : list group) :
  aggregate_types self = Ok l ->
  exists d, keyed (fun k => k) d /\ Permutation l (dict_values d).
Proof.
  unfold aggregate_types. intros H. apply bind_ok in H as (d & Hscan & Hsort).
  exists d. split; [|eapply sort_perm; eauto].
  revert Hscan. apply for_each_invariant; [|apply keyed_nil].
  intros obj s s' _ Hs Hb. scan_invariant.
Qed.

Lemma publication_scan (self : Aggregator) (l : list group) :
  aggregate_publication self = Ok l ->
  exists d, keyed slugify d /\ labelled d /\ Permutation l (dict_values d).
Proof.
  unfold aggregate_publication. intros H.
  apply bind_ok in H as (d & Hscan & Hsort).
  exists d.
  enough (keyed slugify d /\ labelled d) as [? ?]
    by (split; [assumption | split; [assumption | eapply sort_perm; eauto]]).
  revert Hscan.
  apply (for_each_invariant _ (fun d => keyed slugify d /\ labelled d));
    [|split; [apply keyed_nil | apply labelled_nil]].
  intros obj s s' _ [Hs Hl] Hb.
  destruct (o_publication obj); split; scan_invariant.
Qed.

Lemma collection_scan (self : Aggregator) (l : list group) :
  aggregate_collection self = Ok l ->
  exists d, keyed slugify d /\ labelled d /\ Permutation l (dict_values d).
Proof.
  unfold aggregate_collection. intros H.
  apply bind_ok in H as (d & Hscan & Hsort).
  exists d.
  enough (keyed slugify d /\ labelled d) as [? ?]
    by (split; [assumption | split; [assumption | eapply sort_perm; eauto]]).
  revert Hscan.
  apply (for_each_invariant _ (fun d => keyed slugify d /\ labelled d));
    [|split; [apply keyed_nil | apply labelled_nil]].
  intros obj s s' _ [Hs Hl] Hb.
  destruct (o_collection obj); split; scan_invariant.
Qed.

Lemma event_scan (self : Aggregator) (l : list group) :
  aggregate_event self = Ok l ->
  exists d, keyed slugify d /\ labelled d /\ Permutation l (dict_values d).
Proof.
  unfold aggregate_event. intros H.
  apply bind_ok in H as (d & Hscan & Hsort).
  exists d.
  enough (keyed slugify d /\ labelled d) as [? ?]
    by (split; [assumption | split; [assumption | eapply sort_perm; eauto]]).
  revert Hscan.
  apply (for_each_invariant _ (fun d => keyed slugify d /\ labelled d));
    [|split; [apply keyed_nil | apply labelled_nil]].
  intros obj s s' _ [Hs Hl] Hb. split; scan_invariant.
Qed.

(** *** The scan of [aggregate_latest]

    The accumulator is never assigned, so it stays empty until the first
    record inside the window, where the scan raises. *)
Lemma latest_outcome (today : date) (self : Aggregator) (threshold : string) :
  seven_days_ago today = Ok threshold ->
  aggregate_latest today self =
  if existsb (in_window threshold) (objs self) then Err NameError else Ok [].
Proof.
  intros Ht. unfold aggregate_latest. rewrite Ht. simpl.
  induction (objs self) as [|obj r IH]; simpl; [reflexivity|].
  destruct (in_window threshold obj); simpl; [reflexivity | exact IH].
Qed.

Lemma latest_empty (today : date) (self : Aggregator) (l : list group) :
  aggregate_latest today self = Ok l -> l = [].
Proof.
  destruct (seven_days_ago today) as [threshold|e] eqn:Ht.
  - rewrite (latest_outcome _ _ _ Ht).
    destruct (existsb _ _); [discriminate | now inversion 1].
  - unfold aggregate_latest. rewrite Ht. discriminate.
Qed.



(* ================================================================= *)
(** ** Scans that group every record *)

Section GroupEvery.
Variable keyof : record -> string.
Variable fresh : record -> group.
Variables keyf labelf : string -> string.
Hypothesis fresh_key : forall o, g_key (fresh o) = keyf (keyof o).
Hypothesis fresh_label : forall o, g_label (fresh o) = labelf (keyof o).
Hypothesis fresh_count : forall o, g_count (fresh o) = 0.
Hypothesis fresh_objects : forall o, g_objects (fresh o) = [].

Lemma scan_is_grouped (l : list record) (d : dict) :
  for_each (fun obj d =>
      add_object (keyof obj) obj (set_if_absent (keyof obj) (fresh obj) d))
    l d
  = Ok (grouped keyof fresh l d).
Proof.
  apply for_each_fold. intros obj s. apply scan_step.
Qed.

Lemma entry_ok_upsert (obj : record) (d : dict) :
  Forall (entry_ok keyof keyf labelf) d ->
  Forall (entry_ok keyof keyf labelf) (upsert (keyof obj) (fresh obj) obj d).
Proof.
  intros Hd. apply upsert_Forall; [exact Hd | |]; unfold entry_ok; simpl.
  - intros g (Hk & Hl & Hc & Ho). repeat split; auto.
    + now apply counted_tally.
    + intros o Hin. apply in_app_or in Hin as [Hin|[<-|[]]]; auto.
  - rewrite fresh_key, fresh_label, fresh_objects. repeat split.
    + apply counted_tally. unfold counted.
      now rewrite fresh_count, fresh_objects.
    + intros o [<-|[]]. reflexivity.
Qed.

Lemma grouped_invariant (l : list record) : forall d,
  NoDup (map fst d) -> Forall (entry_ok keyof keyf labelf) d ->
  NoDup (map fst (grouped keyof fresh l d)) /\
  Forall (entry_ok keyof keyf labelf) (grouped keyof fresh l d).
Proof.
  induction l as [|obj r IH]; simpl; intros d Hn Hd; [now split|].
  apply IH; [now apply upsert_NoDup | now apply entry_ok_upsert].
Qed.

Lemma grouped_keeps (l : list record) : forall d k g o,
  In (k, g) d -> In o (g_objects g) ->
  exists g', In (k, g') (grouped keyof fresh l d) /\ In o (g_objects g').
Proof.
  induction l as [|obj r IH]; simpl; intros d k g o Hin Ho; [eauto|].
  destruct (upsert_keeps (keyof obj) (fresh obj) obj d k g o Hin Ho)
    as (g1 & Hin1 & Ho1).
  eapply IH; eauto.
Qed.

Lemma grouped_complete (l : list record) : forall d o,
  In o l ->
  exists g, In (keyof o, g) (grouped keyof fresh l d) /\ In o (g_objects g).
Proof.
  induction l as [|obj r IH]; simpl; intros d o [].
  - subst obj.
    destruct (upsert_has (keyof o) (fresh o) o d) as (g & Hin & Ho).
    eapply grouped_keeps; eauto.
  - now apply IH.
Qed.

Lemma grouped_total_count (l : list record) : forall d,
  total_count (grouped keyof fresh l d) = length l + total_count d.
Proof.
  induction l as [|obj r IH]; simpl; intros d; [reflexivity|].
  rewrite IH, upsert_total_count by apply fresh_count. lia.
Qed.

Lemma grouped_keys (l : list record) : forall d k,
  In k (map fst (grouped keyof fresh l d)) <->
  In k (map fst d) \/ In k (map keyof l).
Proof.
  induction l as [|obj r IH]; simpl; intros d k; [tauto|].
  rewrite IH, upsert_keys.
  destruct (dict_in (keyof obj) d) eqn:Hin.
  - apply dict_in_true in Hin. intuition (subst; auto).
  - rewrite in_app_iff. simpl. tauto.
Qed.
End GroupEvery.

Lemma NoDup_fst_functional (d : dict) (k : string) (g g' : group) :
  NoDup (map fst d) -> In (k, g) d -> In (k, g') d -> g = g'.
Proof.
  induction d as [|[k0 g0] r IH]; simpl; [intros _ []|].
  intros Hn H1 H2. inversion Hn as [|? ? Hnotin Hn']; subst.
  destruct H1 as [H1|H1], H2 as [H2|H2].
  - congruence.
  - inversion H1; subst. exfalso. apply Hnotin.
    change k with (fst (k, g')). now apply in_map.
  - inversion H2; subst. exfalso. apply Hnotin.
    change k with (fst (k, g)). now apply in_map.
  - now apply IH.
Qed.

Lemma list_sum_perm (l l' : list nat) :
  Permutation l l' -> list_sum l = list_sum l'.
Proof.
  induction 1; simpl; lia.
Qed.

(** What the caller sees of such a scan once the values are sorted:
    every record is in the group of its key and in no other group, and
    the counts add up to the number of records. *)
Lemma grouped_result (keyof : record -> string) (fresh : record -> group)
  (keyf labelf : string -> string) (l : list record) (res : list group) :
  (forall o, g_key (fresh o) = keyf (keyof o)) ->
  (forall o, g_label (fresh o) = labelf (keyof o)) ->
  (forall o, g_count (fresh o) = 0) ->
  (forall o, g_objects (fresh o) = []) ->
  Permutation res (dict_values (grouped keyof fresh l [])) ->
  (forall o, In o l ->
     exists g,
       In g res /\ In o (g_objects g) /\
       g_key g = keyf (keyof o) /\ g_label g = labelf (keyof o) /\
       (forall g', In g' res -> In o (g_objects g') -> g' = g)) /\
  list_sum (map g_count res) = length l.
Proof.
  intros Hk Hl Hc Ho Hp.
  destruct (grouped_invariant keyof fresh keyf labelf Hk Hl Hc Ho l [])
    as [Hn Hall]; [constructor | constructor |].
  set (d := grouped keyof fresh l []) in *.
  assert (Hres : forall g, In g res <-> exists k, In (k, g) d).
  { intros g. split.
    - intros Hin. apply (Permutation_in _ Hp) in Hin.
      apply in_map_iff in Hin as ([k g0] & <- & Hin). eauto.
    - intros (k & Hin). apply (Permutation_in _ (Permutation_sym Hp)).
      apply in_map_iff. exists (k, g). auto. }
  rewrite Forall_forall in Hall. split.
  - intros o Hin.
    destruct (grouped_complete keyof fresh l [] o Hin) as (g & Hg & Hog).
    fold d in Hg. exists g.
    destruct (Hall _ Hg) as (Hkey & Hlab & _ & _). simpl in *.
    repeat split; auto.
    + apply Hres. eauto.
    + intros g' Hg' Hog'. apply Hres in Hg' as (k' & Hg').
      destruct (Hall _ Hg') as (_ & _ & _ & Hsound). simpl in Hsound.
      rewrite <- (Hsound o Hog') in Hg'.
      eapply NoDup_fst_functional; eauto.
  - rewrite (list_sum_perm _ _ (Permutation_map g_count Hp)).
    unfold dict_values. rewrite map_map.
    change (total_count d = length l). unfold d.
    rewrite grouped_total_count by assumption. unfold total_count. simpl. lia.
Qed.

(** *** The sort of [aggregate_ids] *)

Lemma insert_sorted {A : Type} (x : Z * A) (l : list (Z * A)) :
  StronglySorted (fun a b => (fst a <= fst b)%Z) l ->
  StronglySorted (fun a b => (fst a <= fst b)%Z) (insert Z.ltb x l).
Proof.
  induction 1 as [|y r Hs IH Hy]; simpl.
  - constructor; constructor.
  - destruct (Z.ltb_spec (fst y) (fst x)) as [Hlt|Hge].
    + constructor; [exact IH|].
      eapply Permutation_Forall; [symmetry; apply insert_perm|].
      constructor; [lia | exact Hy].
    + constructor; [now constructor|].
      constructor; [exact Hge|].
      eapply Forall_impl; [|exact Hy]. simpl. intros; lia.
Qed.

Lemma stable_sort_sorted {A : Type} (l : list (Z * A)) :
  StronglySorted (fun a b => (fst a <= fst b)%Z) (stable_sort Z.ltb l).
Proof.
  induction l as [|x r IH]; simpl; [constructor | now apply insert_sorted].
Qed.

Lemma decorated_combine {A K : Type} (key : A -> result K) (l : list A)
  (keys : list K) :
  map_result key l = Ok keys ->
  Forall (fun p => key (snd p) = Ok (fst p)) (combine keys l).
Proof.
  intros H. apply map_result_Forall2 in H.
  induction H; simpl; constructor; auto.
Qed.

Lemma decorated_keys {A K : Type} (key : A -> result K) (kv : list (K * A)) :
  Forall (fun p => key (snd p) = Ok (fst p)) kv ->
  map_result key (map snd kv) = Ok (map fst kv).
Proof.
  induction 1 as [|p r Hp _ IH]; simpl; [reflexivity|]. now rewrite Hp, IH.
Qed.

(** A list sorted with an integer key function and [reverse=False] has
    its keys in ascending order. *)
Lemma sort_int_ascending {A : Type} (key : A -> result Z) (l l' : list A) :
  sort Z.ltb key false l = Ok l' ->
  exists ns, map_result key l' = Ok ns /\ StronglySorted Z.le ns.
Proof.
  intros H. apply sort_ok in H as (keys & kv & Hk & Hp & -> & Hkv).
  specialize (Hkv eq_refl). exists (map fst kv). split.
  - apply decorated_keys.
    eapply Permutation_Forall; [symmetry; exact Hp|].
    now apply decorated_combine.
  - subst kv. generalize (stable_sort_sorted (combine keys l)).
    generalize (stable_sort Z.ltb (combine keys l)).
    induction 1 as [|p r _ IH Hall]; simpl; constructor; [exact IH|].
    apply Forall_map. exact Hall.
Qed.

Lemma int_raises_ValueError (s : string) (e : exn) :
  int s = Err e -> e = ValueError.
Proof.
  assert (Hu : forall r e', int_unsigned r = Err e' -> e' = ValueError).
  { intros r e'. unfold int_unsigned.
    destruct r as [|c r]; [now inversion 1|].
    destruct (Ascii.eqb c underscore); [now inversion 1|].
    destruct (scan_digits _ _ _ _) as [[[v n] rest]|]; [|now inversion 1].
    destruct (Nat.eqb n 0); [now inversion 1|].
    destruct (Nat.ltb _ _); [now inversion 1|].
    destruct (skip_c_space rest); [discriminate | now inversion 1]. }
  unfold int.
  destruct (skip_c_space s) as [|c r]; [apply Hu|].
  destruct c as [[] [] [] [] [] [] [] []]; try apply Hu.
  unfold bind. destruct (int_unsigned r) eqn:Hr; [discriminate|].
  inversion 1; subst. eapply Hu; eauto.
Qed.

(** *** The three scans as [grouped] dicts *)

Lemma event_unfold (self : Aggregator) :
  aggregate_event self =
  sort str_lt (fun o => Ok (get_sort_event o)) false
    (dict_values (grouped event_title_of fresh_event (objs self) [])).
Proof.
  unfold aggregate_event.
  change (for_each _ (objs self) []) with
    (for_each (fun obj d =>
        add_object (event_title_of obj) obj
          (set_if_absent (event_title_of obj) (fresh_event obj) d))
       (objs self) []).
  now rewrite scan_is_grouped.
Qed.

Lemma ids_unfold (self : Aggregator) :
  aggregate_ids self =
  sort Z.ltb (fun x => int (g_key x)) false
    (dict_values (grouped get_eprint_id fresh_id (objs self) [])).
Proof.
  unfold aggregate_ids.
  change (for_each _ (objs self) []) with
    (for_each (fun obj d =>
        add_object (get_eprint_id obj) obj
          (set_if_absent (get_eprint_id obj) (fresh_id obj) d))
       (objs self) []).
  now rewrite scan_is_grouped.
Qed.

Lemma types_unfold (self : Aggregator) :
  aggregate_types self =
  sort str_lt (fun x => Ok (g_key x)) false
    (dict_values (grouped get_object_type fresh_type (objs self) [])).
Proof.
  unfold aggregate_types.
  change (for_each _ (objs self) []) with
    (for_each (fun obj d =>
        add_object (get_object_type obj) obj
          (set_if_absent (get_object_type obj) (fresh_type obj) d))
       (objs self) []).
  now rewrite scan_is_grouped.
Qed.

(* ================================================================= *)
(** ** The facet results *)

(** *** Runs on small inputs *)

Example year_descending :
  summary (aggregate_year
             (agg [with_date "2020-05-01"; with_date "2019"; blank;
                   with_date "2021-01-01"; with_date "2020-12-31"]))
  = Ok [("2021", "2021", 1); ("2020", "2020", 2); ("2019", "2019", 1)].
Proof. reflexivity. Qed.

Example types_labels :
  summary (aggregate_types
             (agg [with_type "conference_item"; blank; with_type "article";
                   blank]))
  = Ok [("", "", 2); ("article", "Article", 1);
        ("conference_item", "Conference Item", 1)].
Proof. reflexivity. Qed.

Example event_empty_title :
  summary (aggregate_event
             (agg [with_event_title "Fall Meeting/2019"; blank;
                   with_event_title "Fall Meeting/2019"]))
  = Ok [("Fall_Meeting_2019", "Fall Meeting/2019", 2); ("", "", 1)].
Proof. reflexivity. Qed.

Example people_first_name_wins :
  summary (aggregate_people
             (agg [with_creators [mkcreator (Some "Z") (Some "Zed");
                                  mkcreator (Some "B") (Some "Bob")];
                   with_creators [mkcreator (Some "B") (Some "Robert")];
                   with_creators [mkcreator None (Some "Ann")]]))
  = Ok [("B", "Bob", 2); ("Z", "Zed", 1)].
Proof. reflexivity. Qed.

(** *** The claims *)

(** C1. Claimed: a record is in the result of [aggregate_latest] exactly
    when its truncated [lastmod] is non-empty and not before the day seven
    days before today; with today 2024-01-12 the record last modified
    2024-01-10 is included.  The code subtracts [timedelta(days = -7)], so
    its threshold is 2024-01-19, seven days after today: the record, which
    is inside the claimed window (threshold 2024-01-05), is left out and the
    call returns the empty list; a record that does pass the code's test
    makes the call raise [NameError]. *)
Theorem latest_leaves_out_recent_record :
  let today := mkdate 2024 1 12 in
  let r := with_lastmod "2024-01-10T00:00:00Z" in
  seven_days_ago today = Ok "2024-01-19" /\
  in_window "2024-01-05" r = true /\
  aggregate_latest today (agg [r]) = Ok [] /\
  aggregate_latest today (agg [with_lastmod "2024-01-20T00:00:00Z"])
  = Err NameError.
Proof. vm_compute. repeat split. Qed.

(** C2. Claimed: a record lacking the field a facet groups on never makes
    the facet raise.  [aggregate_people] raises [KeyError] on a record
    with no [creators] field ([has_creator_ids] reads [obj['creators']]
    unguarded), and [aggregate_ids] raises [ValueError] on a record with no
    [eprint_id] field (its key is the empty string, which [int] refuses).
    On the same record the other facets return: the event and type facets
    with one group under the empty key, the rest with no group. *)
Theorem missing_field_raises :
  let today := mkdate 2024 1 12 in
  aggregate_people (agg [blank]) = Err KeyError /\
  aggregate_ids (agg [blank]) = Err ValueError /\
  map (fun f => summary (call f today no_subjects (agg [blank])))
    [Event; Types] = [Ok [("", "", 1)]; Ok [("", "", 1)]] /\
  map (fun f => call f today no_subjects (agg [blank]))
    [Year; Publication; Issn; Collection; Subjects; Latest]
  = [Ok []; Ok []; Ok []; Ok []; Ok []; Ok []].
Proof. vm_compute. repeat split. Qed.

(** C3. Claimed: in [aggregate_people] a creator lacking an identifier or a
    display name contributes no group and causes no failure.  Once one
    creator of the record has an identifier, the scan reads [creator['id']]
    and [creator['display_name']] of every creator: a creator without
    either makes the call raise [KeyError]. *)
Theorem people_creator_without_field_raises :
  aggregate_people
    (agg [with_creators [mkcreator (Some "A") (Some "Alice");
                         mkcreator None (Some "Bob")]]) = Err KeyError /\
  aggregate_people
    (agg [with_creators [mkcreator (Some "A") (Some "Alice");
                         mkcreator (Some "B") None]]) = Err KeyError.
Proof. vm_compute. split; reflexivity. Qed.

(** C4. Claimed: the result of [aggregate_publication] is sorted ascending
    by publication name.  [get_sort_publication] looks for a field
    ['publication'] that no descriptor has, so every sort key is the empty
    string and the stable sort keeps the scan order: publications seen as
    "B" then "A" come back as "B", "A". *)
Theorem publication_result_in_scan_order :
  exists g1 g2,
    aggregate_publication (agg [with_publication "B"; with_publication "A"])
    = Ok [g1; g2] /\
    g_label g1 = "B" /\ g_label g2 = "A" /\
    get_sort_publication g1 = Ok "" /\ get_sort_publication g2 = Ok "" /\
    str_lt (g_label g2) (g_label g1) = true.
Proof. do 2 eexists. vm_compute. repeat split. Qed.

(** C5, as claimed, fails: the publications "a b" and "a_b" form two
    groups with the same ['key'], "a_b". *)
Lemma publication_keys_collide :
  exists l,
    aggregate_publication (agg [with_publication "a b"; with_publication "a_b"])
    = Ok l /\
    ~ NoDup (map g_key l).
Proof.
  eexists. split; [vm_compute; reflexivity|].
  simpl. intros H. inversion H as [|x r Hin _]; subst. apply Hin. now left.
Qed.

(** C5, amended.  In the result of every facet call every descriptor's
    ['count'] is the length of its ['objects'].  The ['key'] values are
    pairwise distinct for the people, year, issn, subject, identifier, type
    and latest facets.  For the publication, collection and event facets
    the ['label'] values are pairwise distinct and ['key'] is the slug of
    ['label']. *)
Theorem facet_result_counted_and_distinct
  (f : facet) (today : date) (sm : subject_map) (self : Aggregator)
  (l : list group) :
  call f today sm self = Ok l ->
  Forall counted l /\
  (slug_keyed f = false -> NoDup (map g_key l)) /\
  (slug_keyed f = true ->
   NoDup (map g_label l) /\
   Forall (fun g => g_key g = slugify (g_label g)) l).
Proof.
  intros H.
  assert (Hplain :
    (exists d, keyed (fun k => k) d /\ Permutation l (dict_values d)) ->
    slug_keyed f = false ->
    Forall counted l /\
    (slug_keyed f = false -> NoDup (map g_key l)) /\
    (slug_keyed f = true ->
     NoDup (map g_label l) /\
     Forall (fun g => g_key g = slugify (g_label g)) l)).
  { intros (d & Hd & Hp) Hf. destruct (keyed_values d l Hd Hp) as [Hc Hn].
    split; [exact Hc|]. split; [auto | rewrite Hf; discriminate]. }
  assert (Hslug :
    (exists d, keyed slugify d /\ labelled d /\ Permutation l (dict_values d)) ->
    slug_keyed f = true ->
    Forall counted l /\
    (slug_keyed f = false -> NoDup (map g_key l)) /\
    (slug_keyed f = true ->
     NoDup (map g_label l) /\
     Forall (fun g => g_key g = slugify (g_label g)) l)).
  { intros (d & Hd & Hl & Hp) Hf.
    destruct (slug_keyed_values d l Hd Hl Hp) as (Hc & Hn & Hk).
    split; [exact Hc|]. split; [rewrite Hf; discriminate | auto]. }
  destruct f; simpl in H;
    try (apply Hplain; [|reflexivity]);
    try (apply Hslug; [|reflexivity]).
  - now apply (people_scan self).
  - now apply (people_scan self).
  - now apply (people_scan self).
  - now apply (people_scan self).
  - now apply (year_scan self).
  - now apply (publication_scan self).
  - now apply (issn_scan self).
  - now apply (collection_scan self).
  - now apply (event_scan self).
  - now apply (subjects_scan self sm).
  - now apply (ids_scan self).
  - now apply (types_scan self).
  - apply latest_empty in H. subst. exists []. split; [apply keyed_nil|reflexivity].
Qed.

Lemma facet_result_counted_and_distinct_witness :
  exists l,
    call Publication (mkdate 2024 1 12) no_subjects
      (agg [with_publication "a b"; with_publication "a_b"]) = Ok l /\
    Forall counted l /\
    (slug_keyed Publication = false -> NoDup (map g_key l)) /\
    (slug_keyed Publication = true ->
     NoDup (map g_label l) /\
     Forall (fun g => g_key g = slugify (g_label g)) l).
Proof.
  eexists. split; [vm_compute; reflexivity|].
  apply (facet_result_counted_and_distinct Publication (mkdate 2024 1 12)
           no_subjects (agg [with_publication "a b"; with_publication "a_b"])).
  vm_compute. reflexivity.
Defined.

(** C6.  [aggregate_ids] raises exactly when the identifier of some record
    (the key of its group) is refused by [int], and the exception is then
    [ValueError]; when it returns, the integer values of the keys of the
    returned groups are in ascending order; the identifiers "10", "2", "33"
    come back in the order 2, 10, 33. *)
Theorem ids_sorted_by_integer_or_raise (self : Aggregator) :
  (is_err (aggregate_ids self) = true <->
   exists o, In o (objs self) /\ is_err (int (get_eprint_id o)) = true) /\
  (forall e, aggregate_ids self = Err e -> e = ValueError) /\
  (forall l, aggregate_ids self = Ok l ->
     exists ns,
       map_result (fun g => int (g_key g)) l = Ok ns /\
       StronglySorted Z.le ns) /\
  (exists l,
     aggregate_ids
       (agg [with_eprint_id "10"; with_eprint_id "2"; with_eprint_id "33"])
     = Ok l /\
     map g_key l = ["2"; "10"; "33"]).
Proof.
  rewrite ids_unfold.
  set (d := grouped get_eprint_id fresh_id (objs self) []).
  destruct (grouped_invariant get_eprint_id fresh_id (fun k => k) (fun k => k)
              (fun _ => eq_refl) (fun _ => eq_refl) (fun _ => eq_refl)
              (fun _ => eq_refl) (objs self) [])
    as [_ Hall]; [constructor | constructor |].
  fold d in Hall. rewrite Forall_forall in Hall.
  repeat split.
  - intros H. apply sort_err_iff, map_result_err_iff in H as (g & Hg & He).
    apply in_map_iff in Hg as ([k g0] & <- & Hin).
    destruct (Hall _ Hin) as (Hk & _). simpl in *. rewrite Hk in He.
    assert (Hkeys : In k (map fst d))
      by (change k with (fst (k, g0)); now apply in_map).
    apply (grouped_keys get_eprint_id fresh_id) in Hkeys as [[]|Hkeys].
    apply in_map_iff in Hkeys as (o & <- & Ho). eauto.
  - intros (o & Ho & He). apply sort_err_iff, map_result_err_iff.
    assert (Hkeys : In (get_eprint_id o) (map fst d)).
    { apply (grouped_keys get_eprint_id fresh_id). right. now apply in_map. }
    apply in_map_iff in Hkeys as ([k g] & Hk & Hin). simpl in Hk. subst k.
    exists g. split.
    + apply in_map_iff. exists (get_eprint_id o, g). auto.
    + destruct (Hall _ Hin) as (Hkey & _). simpl in Hkey. now rewrite Hkey.
  - intros e H. unfold sort in H.
    destruct (map_result _ (dict_values d)) as [keys|e'] eqn:Hm;
      [discriminate|].
    inversion H; subst.
    eapply map_result_ValueError; [|exact Hm].
    intros g e0. apply int_raises_ValueError.
  - intros l. apply sort_int_ascending.
  - eexists. split; vm_compute; reflexivity.
Qed.

(** C7.  [aggregate_event] returns, and every input record is in exactly
    one event group, the one labelled with its event title; a record with
    no [event_title] field is in the group whose key and label are the
    empty string; the counts add up to the number of records. *)
Theorem event_groups_every_record (self : Aggregator) :
  exists l,
    aggregate_event self = Ok l /\
    (forall o, In o (objs self) ->
       exists g,
         In g l /\ In o (g_objects g) /\
         g_key g = slugify (event_title_of o) /\
         g_label g = event_title_of o /\
         (forall g', In g' l -> In o (g_objects g') -> g' = g)) /\
    (forall o, In o (objs self) -> o_event_title o = None ->
       exists g,
         In g l /\ In o (g_objects g) /\ g_key g = "" /\ g_label g = "") /\
    list_sum (map g_count l) = length (objs self).
Proof.
  rewrite event_unfold.
  destruct (sort_pure str_lt get_sort_event false
              (dict_values (grouped event_title_of fresh_event (objs self) [])))
    as (l & Hl & Hp).
  exists l. split; [exact Hl|].
  destruct (grouped_result event_title_of fresh_event slugify (fun k => k)
              (objs self) l) as [Hin Hsum]; auto.
  split; [exact Hin|]. split; [|exact Hsum].
  intros o Ho Hnone. destruct (Hin o Ho) as (g & Hg & Hog & Hk & Hlab & _).
  exists g. unfold event_title_of in Hk, Hlab. rewrite Hnone in Hk, Hlab.
  auto.
Qed.




(** C9.  [aggregate_latest] never returns a non-empty list.  When the
    threshold date exists (today is not in the last week of year 9999),
    either no record passes the window test and the result is the empty
    list, or some record passes it and the call raises [NameError]. *)
Theorem latest_empty_or_name_error (today : date) (self : Aggregator) :
  (forall l, aggregate_latest today self = Ok l -> l = []) /\
  (forall threshold, seven_days_ago today = Ok threshold ->
     ((forall o, In o (objs self) -> in_window threshold o = false) /\
      aggregate_latest today self = Ok []) \/
     ((exists o, In o (objs self) /\ in_window threshold o = true) /\
      aggregate_latest today self = Err NameError)).
Proof.
  split; [intros l; apply latest_empty|].
  intros threshold Ht. rewrite (latest_outcome _ _ _ Ht).
  destruct (existsb (in_window threshold) (objs self)) eqn:He.
  - right. split; [|reflexivity]. now apply existsb_exists.
  - left. split; [|reflexivity]. intros o Ho.
    destruct (in_window threshold o) eqn:Hw; [|reflexivity].
    assert (existsb (in_window threshold) (objs self) = true)
      by (apply existsb_exists; eauto).
    congruence.
Qed.

Lemma latest_empty_or_name_error_witness :
  seven_days_ago (mkdate 2024 1 12) = Ok "2024-01-19" /\
  (((forall o, In o (objs (agg [with_lastmod "2024-01-20T00:00:00Z"])) ->
     in_window "2024-01-19" o = false) /\
    aggregate_latest (mkdate 2024 1 12)
      (agg [with_lastmod "2024-01-20T00:00:00Z"]) = Ok []) \/
   ((exists o, In o (objs (agg [with_lastmod "2024-01-20T00:00:00Z"])) /\
     in_window "2024-01-19" o = true) /\
    aggregate_latest (mkdate 2024 1 12)
      (agg [with_lastmod "2024-01-20T00:00:00Z"]) = Err NameError)).
Proof.
  split; [reflexivity|].
  apply (proj2 (latest_empty_or_name_error (mkdate 2024 1 12)
                  (agg [with_lastmod "2024-01-20T00:00:00Z"]))).
  reflexivity.
Defined.

(** C10.  [aggregate_types] returns, and every input record is in exactly
    one type group, the one keyed by its type code; a record with no
    [type] field is in the group whose key and label are the empty string;
    the counts add up to the number of records. *)
Theorem types_groups_every_record (self : Aggregator) :
  exists l,
    aggregate_types self = Ok l /\
    (forall o, In o (objs self) ->
       exists g,
         In g l /\ In o (g_objects g) /\
         g_key g = get_object_type o /\
         g_label g = make_label (get_object_type o) /\
         (forall g', In g' l -> In o (g_objects g') -> g' = g)) /\
    (forall o, In o (objs self) -> o_type o = None ->
       exists g,
         In g l /\ In o (g_objects g) /\ g_key g = "" /\ g_label g = "") /\
    list_sum (map g_count l) = length (objs self).
Proof.
  rewrite types_unfold.
  destruct (sort_pure str_lt g_key false
              (dict_values (grouped get_object_type fresh_type (objs self) [])))
    as (l & Hl & Hp).
  exists l. split; [exact Hl|].
  destruct (grouped_result get_object_type fresh_type (fun k => k) make_label
              (objs self) l) as [Hin Hsum]; auto.
  split; [exact Hin|]. split; [|exact Hsum].
  intros o Ho Hnone. destruct (Hin o Ho) as (g & Hg & Hog & Hk & Hlab & _).
  exists g. unfold get_object_type in Hk, Hlab. rewrite Hnone in Hk, Hlab.
  auto.
Qed.

(* ================================================================= *)
(** ** The order of [str] and sorted results *)

Lemma ascii_compare_le_trans (a b c : ascii) :
  Ascii.compare a b <> Gt -> Ascii.compare b c <> Gt ->
  Ascii.compare a c <> Gt.
Proof.
  unfold Ascii.compare. rewrite !N.compare_le_iff. lia.
Qed.

Lemma string_compare_le_trans (x : string) : forall y z,
  String.compare x y <> Gt -> String.compare y z <> Gt ->
  String.compare x z <> Gt.
Proof.
  induction x as [|a x IH]; intros [|b y] [|c z]; simpl; try congruence.
  destruct (Ascii.compare a b) eqn:Hab; try congruence;
    destruct (Ascii.compare b c) eqn:Hbc; try congruence; intros H1 H2.
  - apply Ascii.compare_eq_iff in Hab, Hbc. subst.
    assert (Hcc : Ascii.compare c c = Eq)
      by (unfold Ascii.compare; apply N.compare_refl).
    rewrite Hcc. eauto.
  - apply Ascii.compare_eq_iff in Hab. subst. now rewrite Hbc.
  - apply Ascii.compare_eq_iff in Hbc. subst. now rewrite Hab.
  - assert (Hac : Ascii.compare a c = Lt).
    { unfold Ascii.compare in *. rewrite N.compare_lt_iff in *. lia. }
    now rewrite Hac.
Qed.

Lemma str_lt_asym (a b : string) : str_lt a b = true -> str_lt b a = false.
Proof.
  unfold str_lt, String.ltb. rewrite (String.compare_antisym a b).
  destruct (String.compare b a); simpl; congruence.
Qed.

Lemma str_lt_negtrans (a b c : string) :
  str_lt b a = false -> str_lt c b = false -> str_lt c a = false.
Proof.
  unfold str_lt, String.ltb. intros H1 H2.
  assert (Hab : String.compare a b <> Gt).
  { rewrite String.compare_antisym. destruct (String.compare b a); simpl;
      congruence. }
  assert (Hbc : String.compare b c <> Gt).
  { rewrite String.compare_antisym. destruct (String.compare c b); simpl;
      congruence. }
  pose proof (string_compare_le_trans a b c Hab Hbc) as Hac.
  rewrite String.compare_antisym in Hac.
  destruct (String.compare c a); simpl in *; congruence.
Qed.

Lemma str_lt_trichotomy (a b : string) :
  str_lt a b = false -> str_lt b a = false -> a = b.
Proof.
  unfold str_lt, String.ltb. intros H1 H2.
  apply String.compare_eq_iff. rewrite String.compare_antisym in H2.
  destruct (String.compare a b); simpl in *; congruence.
Qed.

Lemma str_lt_irrefl (a : string) : str_lt a a = false.
Proof.
  destruct (str_lt a a) eqn:H; [|reflexivity].
  now rewrite (str_lt_asym a a H) in H.
Qed.

Section SortedBy.
Context {A K : Type}.
Variable lt : K -> K -> bool.
Hypothesis lt_asym : forall a b, lt a b = true -> lt b a = false.
Hypothesis lt_negtrans :
  forall a b c, lt b a = false -> lt c b = false -> lt c a = false.

Lemma insert_sorted_by (x : K * A) (l : list (K * A)) :
  StronglySorted (fun p q => lt (fst q) (fst p) = false) l ->
  StronglySorted (fun p q => lt (fst q) (fst p) = false) (insert lt x l).
Proof.
  induction 1 as [|y r Hs IH Hy]; simpl.
  - constructor; constructor.
  - destruct (lt (fst y) (fst x)) eqn:Hyx.
    + constructor; [exact IH|].
      eapply Permutation_Forall; [symmetry; apply insert_perm|].
      constructor; [now apply lt_asym | exact Hy].
    + constructor; [now constructor|].
      constructor; [exact Hyx|].
      eapply Forall_impl; [|exact Hy]. simpl. intros q Hq.
      eapply lt_negtrans; eauto.
Qed.

Lemma stable_sort_sorted_by (l : list (K * A)) :
  StronglySorted (fun p q => lt (fst q) (fst p) = false) (stable_sort lt l).
Proof.
  induction l as [|x r IH]; simpl; [constructor | now apply insert_sorted_by].
Qed.
End SortedBy.

Lemma StronglySorted_snoc {A : Type} (R : A -> A -> Prop) (l : list A) (x : A) :
  StronglySorted R l -> Forall (fun y => R y x) l ->
  StronglySorted R (l ++ [x])%list.
Proof.
  induction 1 as [|y r Hs IH Hy]; simpl; intros Hall.
  - constructor; constructor.
  - inversion Hall; subst. constructor; [now apply IH|].
    apply Forall_app. split; [exact Hy | now constructor].
Qed.

Lemma StronglySorted_rev {A : Type} (R : A -> A -> Prop) (l : list A) :
  StronglySorted R l -> StronglySorted (fun a b => R b a) (rev l).
Proof.
  induction 1 as [|x r Hs IH Hx]; simpl; [constructor|].
  apply StronglySorted_snoc; [exact IH|]. now apply Forall_rev.
Qed.

Lemma StronglySorted_undecorate {A K : Type} (g : A -> K)
  (R : K -> K -> Prop) (kv : list (K * A)) :
  Forall (fun p => fst p = g (snd p)) kv ->
  StronglySorted (fun p q => R (fst p) (fst q)) kv ->
  StronglySorted (fun x y => R (g x) (g y)) (map snd kv).
Proof.
  intros Hdec Hs. induction Hs as [|p r Hs IH Hp]; simpl; [constructor|].
  inversion Hdec as [|? ? Hp0 Hr]; subst.
  constructor; [now apply IH|].
  apply Forall_map. rewrite Forall_forall in *. intros q Hq.
  rewrite <- Hp0, <- (Hr q Hq). now apply Hp.
Qed.

Lemma sort_unfold {A K : Type} (lt : K -> K -> bool) (key : A -> result K)
  (reverse : bool) (l l' : list A) :
  sort lt key reverse l = Ok l' ->
  exists keys,
    map_result key l = Ok keys /\
    l' = map snd (if reverse then rev (stable_sort lt (rev (combine keys l)))
                  else stable_sort lt (combine keys l)).
Proof.
  unfold sort. intros H. apply bind_ok in H as (keys & Hk & H).
  inversion H; subst. exists keys. split; [exact Hk|]. now destruct reverse.
Qed.

(** A list sorted with a key function that does not raise is in
    non-descending key order, or non-ascending with [reverse=True]. *)
Lemma sort_ordered {A K : Type} (lt : K -> K -> bool) (g : A -> K)
  (reverse : bool) (l l' : list A) :
  (forall a b, lt a b = true -> lt b a = false) ->
  (forall a b c, lt b a = false -> lt c b = false -> lt c a = false) ->
  sort lt (fun x => Ok (g x)) reverse l = Ok l' ->
  StronglySorted
    (fun x y => (if reverse then lt (g x) (g y) else lt (g y) (g x)) = false)
    l'.
Proof.
  intros Hasym Hneg H. apply sort_unfold in H as (keys & Hk & ->).
  rewrite map_result_pure in Hk. inversion Hk; subst keys; clear Hk.
  assert (Hdec : Forall (fun p => fst p = g (snd p)) (combine (map g l) l)).
  { clear. induction l; simpl; constructor; auto. }
  destruct reverse.
  - apply (StronglySorted_undecorate g (fun a b => lt a b = false)).
    + apply Forall_rev.
      eapply Permutation_Forall; [symmetry; apply stable_sort_perm|].
      now apply Forall_rev.
    + apply (StronglySorted_rev (fun p q => lt (fst q) (fst p) = false)).
      now apply stable_sort_sorted_by.
  - apply (StronglySorted_undecorate g (fun a b => lt b a = false)).
    + eapply Permutation_Forall; [symmetry; apply stable_sort_perm|].
      exact Hdec.
    + now apply stable_sort_sorted_by.
Qed.

(** With a constant key the sort returns the list as it was. *)
Lemma stable_sort_constant {A K : Type} (lt : K -> K -> bool) (c : K)
  (kv : list (K * A)) :
  lt c c = false -> Forall (fun p => fst p = c) kv ->
  stable_sort lt kv = kv.
Proof.
  intros Hc. induction 1 as [|p r Hp Hr IH]; simpl; [reflexivity|].
  rewrite IH. destruct Hr as [|q r' Hq Hr']; simpl; [reflexivity|].
  now rewrite Hq, Hp, Hc.
Qed.

Lemma sort_constant_key {A K : Type} (lt : K -> K -> bool) (c : K)
  (key : A -> result K) (l : list A) :
  lt c c = false -> Forall (fun x => key x = Ok c) l ->
  sort lt key false l = Ok l.
Proof.
  intros Hc Hall. unfold sort.
  assert (Hk : map_result key l = Ok (map (fun _ => c) l)).
  { induction Hall as [|x r Hx _ IH]; simpl; [reflexivity|].
    now rewrite Hx, IH. }
  rewrite Hk. simpl. rewrite stable_sort_constant with (c := c); auto.
  - f_equal. apply snd_combine. now rewrite length_map.
  - clear. induction l; simpl; constructor; auto.
Qed.

(* ================================================================= *)
(** ** What a scan leaves in each group, and in which order *)

Lemma upsert_In_sharp (k : string) (fresh : group) (obj : record) (d : dict)
  (k1 : string) (g1 : group) :
  NoDup (map fst d) ->
  In (k1, g1) (upsert k fresh obj d) ->
  (k1 <> k /\ In (k1, g1) d) \/
  (k1 = k /\
   ((exists g, In (k, g) d /\ g1 = tally obj g) \/
    (~ In k (map fst d) /\ g1 = tally obj fresh))).
Proof.
  induction d as [|[k' g] r IH]; simpl; intros Hn.
  - intros [H|[]]. inversion H; subst. right. split; [reflexivity|].
    right. split; [tauto | reflexivity].
  - inversion Hn as [|? ? Hnotin Hn']; subst.
    destruct (String.eqb k' k) eqn:Hk; simpl.
    + apply String.eqb_eq in Hk; subst k'. intros [H|H].
      * inversion H; subst. right. split; [reflexivity|]. left. eauto.
      * left. split; [|now right]. intros ->. apply Hnotin.
        change k with (fst (k, g1)). now apply in_map.
    + apply String.eqb_neq in Hk. intros [H|H].
      * inversion H; subst. left. split; [exact Hk | now left].
      * destruct (IH Hn' H) as [[Hne Hin]|(-> & [(g0 & Hin & ->)|(Hnot & ->)])].
        -- left. split; [exact Hne | now right].
        -- right. split; [reflexivity|]. left. eauto.
        -- right. split; [reflexivity|]. right. split; [|reflexivity].
           intros [Heq|Hin]; [congruence | contradiction].
Qed.

Lemma filter_none {A : Type} (f : A -> bool) (l : list A) :
  (forall x, In x l -> f x = false) -> filter f l = [].
Proof.
  induction l as [|x r IH]; simpl; intros H; [reflexivity|].
  rewrite (H x) by now left. apply IH. intros y Hy. apply H. now right.
Qed.

Lemma filter_filter_and {A : Type} (f g : A -> bool) (l : list A) :
  filter f (filter g l) = filter (fun x => g x && f x) l.
Proof.
  induction l as [|x r IH]; simpl; [reflexivity|].
  destruct (g x); simpl; [destruct (f x)|]; now rewrite IH.
Qed.

Section ScanContents.
Variable keyof : record -> string.
Variable fresh : record -> group.
Hypothesis fresh_objects : forall o, g_objects (fresh o) = [].

Lemma scanned_step (done : list record) (d : dict) (obj : record) :
  scanned keyof done d ->
  scanned keyof (done ++ [obj]) (upsert (keyof obj) (fresh obj) obj d).
Proof.
  intros (Hn & Hobj & Hcov). split; [now apply upsert_NoDup|]. split.
  - intros k1 g1 Hin. unfold with_key. rewrite filter_app. simpl.
    apply (upsert_In_sharp _ _ _ _ _ _ Hn) in Hin
      as [[Hne Hin]|(-> & [(g0 & Hin & ->)|(Hnot & ->)])].
    + assert (Hk : String.eqb (keyof obj) k1 = false)
        by (apply String.eqb_neq; congruence).
      rewrite Hk, app_nil_r. now apply Hobj.
    + rewrite String.eqb_refl. simpl. f_equal. now apply Hobj.
    + rewrite String.eqb_refl. simpl. rewrite fresh_objects.
      rewrite filter_none; [reflexivity|].
      intros o Ho. apply String.eqb_neq. intros Heq. apply Hnot.
      rewrite <- Heq. now apply Hcov.
  - intros o Ho. rewrite upsert_keys.
    apply in_app_or in Ho as [Ho|[<-|[]]].
    + destruct (dict_in (keyof obj) d); [auto | apply in_or_app; auto].
    + destruct (dict_in (keyof obj) d) eqn:Hd.
      * now apply dict_in_true.
      * apply in_or_app. right. now left.
Qed.

Lemma grouped_scanned (l : list record) : forall done d,
  scanned keyof done d -> scanned keyof (done ++ l) (grouped keyof fresh l d).
Proof.
  induction l as [|obj r IH]; simpl; intros done d H.
  - now rewrite app_nil_r.
  - replace (done ++ obj :: r)%list with ((done ++ [obj]) ++ r)%list
      by (rewrite <- app_assoc; reflexivity).
    apply IH. now apply scanned_step.
Qed.

(** Every group holds exactly the records of its key, in scan order. *)
Lemma grouped_objects (l : list record) (k : string) (g : group) :
  In (k, g) (grouped keyof fresh l []) -> g_objects g = with_key keyof k l.
Proof.
  destruct (grouped_scanned l [] []) as (_ & H & _).
  - split; [constructor|]. split; [intros ? ? [] | intros ? []].
  - apply H.
Qed.

(** A property of entries that [tally] keeps holds of every entry. *)
Lemma grouped_Forall (P : string * group -> Prop) (l : list record) :
  (forall k g o, P (k, g) -> P (k, tally o g)) ->
  (forall o, P (keyof o, tally o (fresh o))) ->
  forall d, Forall P d -> Forall P (grouped keyof fresh l d).
Proof.
  intros Hstep Hnew. induction l as [|obj r IH]; simpl; intros d Hd;
    [exact Hd|].
  apply IH. apply upsert_Forall; auto.
Qed.

Lemma add_key_dict (d : dict) (k : string) :
  add_key (map fst d) k =
  if dict_in k d then map fst d else (map fst d ++ [k])%list.
Proof.
  unfold add_key, dict_in.
  replace (existsb (fun x => String.eqb x k) (map fst d))
    with (existsb (fun e : string * group => String.eqb (fst e) k) d);
    [reflexivity|].
  induction d as [|e r IH]; simpl; [reflexivity | now rewrite IH].
Qed.

Lemma grouped_keys_fold (l : list record) : forall d,
  map fst (grouped keyof fresh l d) =
  fold_left add_key (map keyof l) (map fst d).
Proof.
  induction l as [|obj r IH]; simpl; intros d; [reflexivity|].
  now rewrite IH, upsert_keys, add_key_dict.
Qed.
End ScanContents.

Lemma fold_add_key (ks : list string) : forall acc,
  fold_left add_key ks acc =
  (acc ++ filter (fun x => negb (existsb (fun y => String.eqb y x) acc))
            (first_seen ks))%list.
Proof.
  induction ks as [|k r IH]; simpl; intros acc; [now rewrite app_nil_r|].
  rewrite IH. unfold add_key.
  destruct (existsb (fun x => String.eqb x k) acc) eqn:Hk; simpl.
  - f_equal. rewrite filter_filter_and. apply filter_ext_in.
    intros x _. destruct (String.eqb x k) eqn:Hx; simpl; [|reflexivity].
    apply String.eqb_eq in Hx. subst x. now rewrite Hk.
  - rewrite <- app_assoc. simpl. f_equal. f_equal.
    rewrite filter_filter_and. apply filter_ext.
    intros x. rewrite existsb_app. simpl. rewrite orb_false_r, negb_orb.
    rewrite (String.eqb_sym k x). apply andb_comm.
Qed.

(** The dict's keys are the keys of the records in order of first
    occurrence. *)
Lemma grouped_first_seen (keyof : record -> string) (fresh : record -> group)
  (l : list record) :
  map fst (grouped keyof fresh l []) = first_seen (map keyof l).
Proof.
  rewrite grouped_keys_fold, fold_add_key. simpl.
  induction (first_seen (map keyof l)) as [|x r IH]; simpl; congruence.
Qed.

(** Every returned group is the group of a key that occurs in the
    records, and holds exactly the records of that key in scan order. *)
Lemma grouped_groups (keyof : record -> string) (fresh : record -> group)
  (keyf labelf : string -> string) (l : list record) (res : list group) :
  (forall o, g_key (fresh o) = keyf (keyof o)) ->
  (forall o, g_label (fresh o) = labelf (keyof o)) ->
  (forall o, g_count (fresh o) = 0) ->
  (forall o, g_objects (fresh o) = []) ->
  Permutation res (dict_values (grouped keyof fresh l [])) ->
  forall g, In g res ->
    exists k,
      In k (map keyof l) /\ g_key g = keyf k /\ g_label g = labelf k /\
      g_objects g = with_key keyof k l /\
      g_count g = length (with_key keyof k l).
Proof.
  intros Hk Hl Hc Ho Hp g Hg.
  apply (Permutation_in _ Hp) in Hg.
  apply in_map_iff in Hg as ([k g0] & <- & Hin). simpl. exists k.
  destruct (grouped_invariant keyof fresh keyf labelf Hk Hl Hc Ho l [])
    as [_ Hall]; [constructor | constructor |].
  rewrite Forall_forall in Hall.
  destruct (Hall _ Hin) as (Hkey & Hlab & Hcnt & _). simpl in *.
  pose proof (grouped_objects keyof fresh Ho l k g0 Hin) as Hobj.
  repeat split; auto.
  - assert (Hkeys : In k (map fst (grouped keyof fresh l [])))
      by (change k with (fst (k, g0)); now apply in_map).
    apply (grouped_keys keyof fresh) in Hkeys as [[]|Hkeys]. exact Hkeys.
  - unfold counted in Hcnt. now rewrite Hcnt, Hobj.
Qed.

(** *** Scans that skip the records lacking the field *)

Section SkipScan.
Variable sel : record -> option string.
Variable keyof : record -> string.
Variable fresh : record -> group.
Variable body : record -> dict -> result dict.
Hypothesis keyof_sel : forall obj v, sel obj = Some v -> keyof obj = v.
Hypothesis body_spec : forall obj d,
  body obj d =
  match sel obj with
  | Some v => add_object v obj (set_if_absent v (fresh obj) d)
  | None => Ok d
  end.

Lemma skip_scan_is_grouped (l : list record) : forall d,
  for_each body l d = Ok (grouped keyof fresh (filter (has sel) l) d).
Proof.
  induction l as [|obj r IH]; simpl; intros d; [reflexivity|].
  rewrite body_spec. unfold has at 1.
  destruct (sel obj) as [v|] eqn:Hs; simpl; [|apply IH].
  rewrite scan_step, IH. now rewrite (keyof_sel obj v Hs).
Qed.
End SkipScan.

Lemma year_unfold (self : Aggregator) :
  aggregate_year self =
  sort str_lt (fun o => Ok (get_sort_year o)) true
    (dict_values
       (grouped get_date_year fresh_year (filter (has o_date) (objs self)) [])).
Proof.
  unfold aggregate_year.
  rewrite (skip_scan_is_grouped year_of get_date_year fresh_year).
  - simpl. f_equal. f_equal. f_equal. apply filter_ext. intros o.
    unfold has, year_of. now destruct (o_date o).
  - intros obj v. unfold year_of, get_date_year.
    destruct (o_date obj); now inversion 1.
  - intros obj d. unfold year_of, fresh_year, get_date_year.
    now destruct (o_date obj).
Qed.

Lemma issn_unfold (self : Aggregator) :
  aggregate_issn self =
  sort str_lt (fun o => Ok (get_sort_issn o)) false
    (dict_values
       (grouped (key_of o_issn) fresh_issn
          (filter (has o_issn) (objs self)) [])).
Proof.
  unfold aggregate_issn.
  rewrite (skip_scan_is_grouped o_issn (key_of o_issn) fresh_issn);
    [reflexivity | |].
  - intros obj v H. unfold key_of. now rewrite H.
  - intros obj d. unfold fresh_issn, key_of. now destruct (o_issn obj).
Qed.

Lemma collection_unfold (self : Aggregator) :
  aggregate_collection self =
  sort str_lt (fun o => Ok (get_sort_collection o)) false
    (dict_values
       (grouped (key_of o_collection) fresh_collection
          (filter (has o_collection) (objs self)) [])).
Proof.
  unfold aggregate_collection.
  rewrite (skip_scan_is_grouped o_collection (key_of o_collection)
             fresh_collection); [reflexivity | |].
  - intros obj v H. unfold key_of. now rewrite H.
  - intros obj d. unfold fresh_collection, key_of.
    now destruct (o_collection obj).
Qed.

Lemma publication_unfold (self : Aggregator) :
  aggregate_publication self =
  sort str_lt get_sort_publication false
    (dict_values
       (grouped (key_of o_publication) fresh_publication
          (filter (has o_publication) (objs self)) [])).
Proof.
  unfold aggregate_publication.
  rewrite (skip_scan_is_grouped o_publication (key_of o_publication)
             fresh_publication); [reflexivity | |].
  - intros obj v H. unfold key_of. now rewrite H.
  - intros obj d. unfold fresh_publication, key_of.
    now destruct (o_publication obj).
Qed.

Lemma StronglySorted_strict {A K : Type} (f : A -> K) (R R' : A -> A -> Prop)
  (l : list A) :
  (forall x y, R x y -> f x <> f y -> R' x y) ->
  NoDup (map f l) -> StronglySorted R l -> StronglySorted R' l.
Proof.
  intros Hstrict Hn Hs. induction Hs as [|x r Hs IH Hx]; [constructor|].
  simpl in Hn. inversion Hn as [|? ? Hnotin Hn']; subst.
  constructor; [now apply IH|].
  rewrite Forall_forall in *. intros y Hy. apply Hstrict; [now apply Hx|].
  intros Heq. apply Hnotin. rewrite Heq. now apply in_map.
Qed.

Lemma constant_key_values (keyof : record -> string) (fresh : record -> group)
  (key : group -> result string) (l : list record) :
  (forall g o, key g = Ok "" -> key (tally o g) = Ok "") ->
  (forall o, key (tally o (fresh o)) = Ok "") ->
  Forall (fun g => key g = Ok "") (dict_values (grouped keyof fresh l [])).
Proof.
  intros Hstep Hnew. unfold dict_values. apply Forall_map.
  apply (grouped_Forall keyof fresh (fun e => key (snd e) = Ok ""));
    simpl; auto.
Qed.

Lemma values_keys (keyof : record -> string) (fresh : record -> group)
  (field : group -> string) (l : list record) :
  (forall g o, field (tally o g) = field g) ->
  (forall o, field (fresh o) = keyof o) ->
  map field (dict_values (grouped keyof fresh l [])) =
  first_seen (map keyof l).
Proof.
  intros Hstep Hnew. rewrite <- (grouped_first_seen keyof fresh).
  unfold dict_values. rewrite map_map. apply map_ext_Forall.
  apply (grouped_Forall keyof fresh (fun e => field (snd e) = fst e));
    simpl; [| |constructor].
  - intros k g o H. now rewrite Hstep.
  - intros o. now rewrite Hstep.
Qed.

(* ================================================================= *)
(** ** Further properties of the facets *)

(** X3.  [aggregate_year] always returns.  Every record with a [date] is
    in exactly one group, keyed by the first four characters of the date,
    stripped; every group holds exactly the dated records of its year, in
    scan order, so a record without [date] is in no group; label equals
    key, and the counts add up to the number of dated records. *)
Theorem year_groups_dated_records (self : Aggregator) :
  exists l,
    aggregate_year self = Ok l /\
    (forall o, In o (objs self) -> has o_date o = true ->
       exists g,
         In g l /\ In o (g_objects g) /\ g_key g = get_date_year o /\
         (forall g', In g' l -> In o (g_objects g') -> g' = g)) /\
    (forall g, In g l ->
       g_label g = g_key g /\
       g_objects g =
         with_key get_date_year (g_key g) (filter (has o_date) (objs self)) /\
       g_count g = length (g_objects g)) /\
    list_sum (map g_count l) = length (filter (has o_date) (objs self)).
Proof.
  rewrite year_unfold.
  set (dated := filter (has o_date) (objs self)).
  destruct (sort_pure str_lt get_sort_year true
              (dict_values (grouped get_date_year fresh_year dated [])))
    as (l & Hl & Hp).
  exists l. split; [exact Hl|].
  destruct (grouped_result get_date_year fresh_year (fun k => k) (fun k => k)
              dated l) as [Hin Hsum]; auto.
  split; [|split; [|exact Hsum]].
  - intros o Ho Hd.
    destruct (Hin o) as (g & Hg & Hog & Hk & _ & Huniq).
    + apply filter_In. auto.
    + exists g. auto.
  - intros g Hg.
    destruct (grouped_groups get_date_year fresh_year (fun k => k)
                (fun k => k) dated l) with (g := g)
      as (k & _ & Hk & Hlab & Hobj & Hcnt); auto.
    rewrite Hk, Hlab, Hobj, Hcnt. auto.
Qed.

(** X4.  The groups returned by [aggregate_year] are in strictly
    descending order of their year key. *)
Theorem year_result_descending (self : Aggregator) :
  exists l,
    aggregate_year self = Ok l /\
    StronglySorted (fun g1 g2 => str_lt (g_key g2) (g_key g1) = true) l.
Proof.
  destruct (sort_pure str_lt get_sort_year true
              (dict_values
                 (grouped get_date_year fresh_year
                    (filter (has o_date) (objs self)) [])))
    as (l & Hl & _).
  rewrite <- year_unfold in Hl.
  exists l. split; [exact Hl|].
  destruct (year_scan self l Hl) as (d & Hd & Hp).
  destruct (keyed_values d l Hd Hp) as [_ Hn].
  rewrite year_unfold in Hl.
  assert (Hkeys : Forall (fun g => get_sort_year g = g_key g) l).
  { eapply Permutation_Forall; [symmetry; eapply sort_perm; exact Hl|].
    unfold dict_values. apply Forall_map.
    apply (grouped_Forall get_date_year fresh_year
             (fun e => get_sort_year (snd e) = g_key (snd e)));
      simpl; auto; constructor. }
  apply sort_ordered in Hl; [|apply str_lt_asym|apply str_lt_negtrans].
  simpl in Hl.
  assert (Hs : StronglySorted
                 (fun x y => str_lt (g_key x) (g_key y) = false) l).
  { clear - Hl Hkeys. revert Hkeys.
    induction Hl as [|x r Hs IH Hx]; intros Hkeys; [constructor|].
    inversion Hkeys as [|? ? Hkx Hkr]; subst.
    constructor; [now apply IH|].
    rewrite Forall_forall in *. intros y Hy.
    rewrite <- Hkx, <- (Hkr y Hy). now apply Hx. }
  revert Hs. apply (StronglySorted_strict g_key); [|exact Hn].
  intros x y Hxy Hne.
  destruct (str_lt (g_key y) (g_key x)) eqn:Hyx; [reflexivity|].
  exfalso. apply Hne. now apply str_lt_trichotomy.
Qed.

(** X5.  [aggregate_issn] always returns, and returns its groups in the
    order in which their ISSN first occurs in the records, not sorted:
    [get_sort_issn] finds no ['issn'] field in a descriptor, so every sort
    key is the empty string.  Label equals key, and every group holds
    exactly the records of its ISSN, in scan order. *)
Theorem issn_groups_in_first_seen_order (self : Aggregator) :
  exists l,
    aggregate_issn self = Ok l /\
    map g_key l =
      first_seen (map (key_of o_issn) (filter (has o_issn) (objs self))) /\
    (forall g, In g l ->
       g_label g = g_key g /\
       g_objects g =
         with_key (key_of o_issn) (g_key g)
           (filter (has o_issn) (objs self)) /\
       g_count g = length (g_objects g)).
Proof.
  rewrite issn_unfold.
  set (l0 := filter (has o_issn) (objs self)).
  exists (dict_values (grouped (key_of o_issn) fresh_issn l0 [])).
  split; [|split].
  - apply sort_constant_key with (c := ""); [reflexivity|].
    apply (constant_key_values (key_of o_issn) fresh_issn
             (fun o => Ok (get_sort_issn o))); auto.
  - apply values_keys; auto.
  - intros g Hg.
    destruct (grouped_groups (key_of o_issn) fresh_issn (fun k => k)
                (fun k => k) l0
                (dict_values (grouped (key_of o_issn) fresh_issn l0 [])))
      with (g := g)
      as (k & _ & Hk & Hlab & Hobj & Hcnt); auto.
    rewrite Hk, Hlab, Hobj, Hcnt. auto.
Qed.

(** X6.  [aggregate_collection] always returns, and returns its groups in
    the order in which their collection first occurs in the records, not
    sorted: [get_sort_collection] finds no ['collection'] field in a
    descriptor.  The key is the slug of the label, and every group holds
    exactly the records of its collection, in scan order. *)
Theorem collection_groups_in_first_seen_order (self : Aggregator) :
  exists l,
    aggregate_collection self = Ok l /\
    map g_label l =
      first_seen
        (map (key_of o_collection) (filter (has o_collection) (objs self))) /\
    (forall g, In g l ->
       g_key g = slugify (g_label g) /\
       g_objects g =
         with_key (key_of o_collection) (g_label g)
           (filter (has o_collection) (objs self)) /\
       g_count g = length (g_objects g)).
Proof.
  rewrite collection_unfold.
  set (l0 := filter (has o_collection) (objs self)).
  exists (dict_values (grouped (key_of o_collection) fresh_collection l0 [])).
  split; [|split].
  - apply sort_constant_key with (c := ""); [reflexivity|].
    apply (constant_key_values (key_of o_collection) fresh_collection
             (fun o => Ok (get_sort_collection o))); auto.
  - apply values_keys; auto.
  - intros g Hg.
    destruct (grouped_groups (key_of o_collection) fresh_collection slugify
                (fun k => k) l0
                (dict_values (grouped (key_of o_collection) fresh_collection l0 [])))
      with (g := g)
      as (k & _ & Hk & Hlab & Hobj & Hcnt); auto.
    rewrite Hk, Hlab, Hobj, Hcnt. auto.
Qed.

(** X7.  [aggregate_publication] always returns, and returns its groups in
    the order in which their publication first occurs in the records, not
    sorted: [get_sort_publication] finds no ['publication'] field in a
    descriptor, so it never reaches the unbound name and every sort key is
    the empty string.  The key is the slug of the label, and every group
    holds exactly the records of its publication, in scan order. *)
Theorem publication_groups_in_first_seen_order (self : Aggregator) :
  exists l,
    aggregate_publication self = Ok l /\
    map g_label l =
      first_seen
        (map (key_of o_publication) (filter (has o_publication) (objs self))) /\
    (forall g, In g l ->
       g_key g = slugify (g_label g) /\
       g_objects g =
         with_key (key_of o_publication) (g_label g)
           (filter (has o_publication) (objs self)) /\
       g_count g = length (g_objects g)).
Proof.
  rewrite publication_unfold.
  set (l0 := filter (has o_publication) (objs self)).
  exists (dict_values (grouped (key_of o_publication) fresh_publication l0 [])).
  split; [|split].
  - apply sort_constant_key with (c := ""); [reflexivity|].
    apply (constant_key_values (key_of o_publication) fresh_publication
             get_sort_publication); auto.
  - apply values_keys; auto.
  - intros g Hg.
    destruct (grouped_groups (key_of o_publication) fresh_publication slugify
                (fun k => k) l0
                (dict_values (grouped (key_of o_publication) fresh_publication l0 [])))
      with (g := g)
      as (k & _ & Hk & Hlab & Hobj & Hcnt); auto.
    rewrite Hk, Hlab, Hobj, Hcnt. auto.
Qed.

(** X8.  [aggregate_event] returns its groups in the order in which their
    event title first occurs in the records (the empty title for a record
    without one), not sorted: [get_sort_event] finds no ['event_title']
    field in a descriptor.  Every group holds exactly the records of its
    title, in scan order. *)
Theorem event_groups_in_first_seen_order (self : Aggregator) :
  exists l,
    aggregate_event self = Ok l /\
    map g_label l = first_seen (map event_title_of (objs self)) /\
    (forall g, In g l ->
       g_key g = slugify (g_label g) /\
       g_objects g = with_key event_title_of (g_label g) (objs self) /\
       g_count g = length (g_objects g)).
Proof.
  rewrite event_unfold.
  exists (dict_values (grouped event_title_of fresh_event (objs self) [])).
  split; [|split].
  - apply sort_constant_key with (c := ""); [reflexivity|].
    apply (constant_key_values event_title_of fresh_event
             (fun o => Ok (get_sort_event o))); auto.
  - apply values_keys; auto.
  - intros g Hg.
    destruct (grouped_groups event_title_of fresh_event slugify
                (fun k => k) (objs self)
                (dict_values (grouped event_title_of fresh_event (objs self) [])))
      with (g := g)
      as (k & _ & Hk & Hlab & Hobj & Hcnt); auto.
    rewrite Hk, Hlab, Hobj, Hcnt. auto.
Qed.

(** X9.  [aggregate_types] returns its groups in strictly ascending order
    of the type code; the label of every group is [make_label] of its key,
    and every group holds exactly the records of its type code (the empty
    code for a record without [type]), in scan order. *)
Theorem types_result_ascending (self : Aggregator) :
  exists l,
    aggregate_types self = Ok l /\
    StronglySorted (fun g1 g2 => str_lt (g_key g1) (g_key g2) = true) l /\
    (forall g, In g l ->
       g_label g = make_label (g_key g) /\
       g_objects g = with_key get_object_type (g_key g) (objs self) /\
       g_count g = length (g_objects g)).
Proof.
  destruct (sort_pure str_lt g_key false
              (dict_values (grouped get_object_type fresh_type (objs self) [])))
    as (l & Hl & Hp).
  rewrite <- types_unfold in Hl.
  exists l. split; [exact Hl|]. split.
  - destruct (types_scan self l Hl) as (d & Hd & Hpd).
    destruct (keyed_values d l Hd Hpd) as [_ Hn].
    rewrite types_unfold in Hl.
    apply sort_ordered in Hl; [|apply str_lt_asym|apply str_lt_negtrans].
    simpl in Hl. revert Hl. apply (StronglySorted_strict g_key); [|exact Hn].
    intros x y Hxy Hne.
    destruct (str_lt (g_key x) (g_key y)) eqn:Hyx; [reflexivity|].
    exfalso. apply Hne. now apply str_lt_trichotomy.
  - intros g Hg.
    destruct (grouped_groups get_object_type fresh_type (fun k => k)
                make_label (objs self) l) with (g := g)
      as (k & _ & Hk & Hlab & Hobj & Hcnt); auto.
    rewrite Hk, Hlab, Hobj, Hcnt. auto.
Qed.

(** X10.  When [aggregate_ids] returns, every record is in exactly one
    group, keyed and labelled by its identifier string; records with the
    same identifier string share a group; every group holds exactly the
    records of its identifier, in scan order, and the counts add up to the
    number of records. *)
Theorem ids_groups_by_identifier (self : Aggregator) (l : list group) :
  aggregate_ids self = Ok l ->
  (forall o, In o (objs self) ->
     exists g,
       In g l /\ In o (g_objects g) /\ g_key g = get_eprint_id o /\
       (forall g', In g' l -> In o (g_objects g') -> g' = g)) /\
  (forall g, In g l ->
     g_label g = g_key g /\
     g_objects g = with_key get_eprint_id (g_key g) (objs self) /\
     g_count g = length (g_objects g)) /\
  list_sum (map g_count l) = length (objs self).
Proof.
  rewrite ids_unfold. intros Hl. apply sort_perm in Hl.
  destruct (grouped_result get_eprint_id fresh_id (fun k => k) (fun k => k)
              (objs self) l) as [Hin Hsum]; auto.
  split; [|split; [|exact Hsum]].
  - intros o Ho. destruct (Hin o Ho) as (g & Hg & Hog & Hk & _ & Hu).
    exists g. auto.
  - intros g Hg.
    destruct (grouped_groups get_eprint_id fresh_id (fun k => k)
                (fun k => k) (objs self) l) with (g := g)
      as (k & _ & Hk & Hlab & Hobj & Hcnt); auto.
    rewrite Hk, Hlab, Hobj, Hcnt. auto.
Qed.

Lemma ids_groups_by_identifier_witness :
  exists l,
    aggregate_ids (agg [with_eprint_id "7"; with_eprint_id "12";
                        with_eprint_id "7"]) = Ok l /\
    (forall g, In g l ->
       g_label g = g_key g /\
       g_objects g =
         with_key get_eprint_id (g_key g)
           (objs (agg [with_eprint_id "7"; with_eprint_id "12";
                       with_eprint_id "7"])) /\
       g_count g = length (g_objects g)).
Proof.
  eexists. split; [vm_compute; reflexivity|].
  apply (ids_groups_by_identifier
           (agg [with_eprint_id "7"; with_eprint_id "12"; with_eprint_id "7"])).
  vm_compute. reflexivity.
Defined.

(* ================================================================= *)
(** ** The multi-valued facets *)

Lemma for_each_is_err {A S : Type} (body : A -> S -> result S)
  (ok : A -> bool) (l : list A) :
  (forall x s, is_err (body x s) = negb (ok x)) ->
  forall s, is_err (for_each body l s) = negb (forallb ok l).
Proof.
  intros Hb. induction l as [|x r IH]; simpl; intros s; [reflexivity|].
  specialize (Hb x s). destruct (body x s) as [s'|e]; simpl in Hb.
  - destruct (ok x); [simpl; apply IH | discriminate].
  - destruct (ok x); [discriminate | reflexivity].
Qed.

Lemma for_each_prefix {A S : Type} (body : A -> S -> result S)
  (I : list A -> S -> Prop) (l : list A) :
  (forall done x s s', I done s -> body x s = Ok s' -> I (done ++ [x])%list s') ->
  forall done s s',
    I done s -> for_each body l s = Ok s' -> I (done ++ l)%list s'.
Proof.
  intros Hstep. induction l as [|x r IH]; simpl; intros done s s' Hs Hrun.
  - inversion Hrun; subst. now rewrite app_nil_r.
  - destruct (body x s) as [s1|e] eqn:Hb; [|discriminate].
    replace (done ++ x :: r)%list with ((done ++ [x]) ++ r)%list
      by (rewrite <- app_assoc; reflexivity).
    eapply IH; eauto.
Qed.

Lemma step_Forall (P : string * group -> Prop) (k : string) (fresh : group)
  (obj : record) (d d' : dict) :
  Forall P d ->
  (forall g, P (k, g) -> P (k, tally obj g)) ->
  P (k, tally obj fresh) ->
  add_object k obj (set_if_absent k fresh d) = Ok d' ->
  Forall P d'.
Proof.
  intros Hd Hstep Hnew H. rewrite scan_step in H. inversion H; subst.
  now apply upsert_Forall.
Qed.

Lemma step_keeps (k : string) (fresh : group) (obj : record) (d d' : dict)
  (o : record) (k1 : string) :
  add_object k obj (set_if_absent k fresh d) = Ok d' ->
  in_group o k1 d -> in_group o k1 d'.
Proof.
  intros H (g & Hin & Ho). rewrite scan_step in H. inversion H; subst.
  eapply upsert_keeps; eauto.
Qed.

Lemma step_adds (k : string) (fresh : group) (obj : record) (d d' : dict) :
  add_object k obj (set_if_absent k fresh d) = Ok d' -> in_group obj k d'.
Proof.
  intros H. rewrite scan_step in H. inversion H; subst. apply upsert_has.
Qed.

(** *** [aggregate_people] *)

Lemma people_step_is_err (obj : record) (c : creator) (d : dict) :
  is_err (people_step obj c d) = negb (creator_complete c).
Proof.
  unfold people_step, creator_complete.
  destruct (c_id c), (c_display_name c); simpl; try reflexivity.
  now rewrite scan_step.
Qed.

(** X11.  [aggregate_people] raises exactly when some record has no
    [creators] field, or has a creator with an id together with a creator
    lacking [id] or [display_name]. *)
Theorem people_raises_iff (self : Aggregator) :
  is_err (aggregate_people self) = negb (forallb people_ok (objs self)).
Proof.
  set (body := fun (obj : record) (people : dict) =>
       has_ids <- has_creator_ids obj ;;
       if (has_ids : bool) then
         creators <- getitem (o_creators obj) ;;
         for_each (people_step obj) creators people
       else Ok people).
  assert (Hb : forall obj s, is_err (body obj s) = negb (people_ok obj)).
  { intros obj s. unfold body, people_ok, has_creator_ids.
    destruct (o_creators obj) as [cs|]; simpl; [|reflexivity].
    destruct (any_creator_id cs); simpl; [|reflexivity].
    apply for_each_is_err. intros c s0. apply people_step_is_err. }
  rewrite <- (for_each_is_err body people_ok (objs self) Hb []).
  unfold aggregate_people. fold body.
  destruct (for_each body (objs self) []) as [d|e]; simpl; [|reflexivity].
  destruct (sort_pure str_lt get_sort_name false (dict_values d))
    as (l & Hl & _).
  now rewrite Hl.
Qed.

Lemma any_creator_id_In (cs : list creator) (c : creator) (k : string) :
  In c cs -> c_id c = Some k -> any_creator_id cs = true.
Proof.
  induction cs as [|c0 r IH]; simpl; [intros []|].
  intros [->|Hin] Hk; [now rewrite Hk|].
  destruct (c_id c0); [reflexivity | now apply IH].
Qed.

Lemma people_step_entry (l : list record) (obj : record) (cs : list creator)
  (c : creator) (d d' : dict) :
  In obj l -> o_creators obj = Some cs -> In c cs ->
  Forall (people_entry l) d -> people_step obj c d = Ok d' ->
  Forall (people_entry l) d'.
Proof.
  intros Hobj Hcs Hc Hd H. unfold people_step in H.
  destruct (c_id c) as [cid|] eqn:Hid; [|discriminate].
  destruct (c_display_name c) as [cname|] eqn:Hname; [|discriminate].
  simpl in H. revert H. apply step_Forall; [exact Hd | |].
  - intros g (Hx & Hsound & Hlab). split; [exact Hx|]. split; [|exact Hlab].
    simpl. intros o Ho. apply in_app_or in Ho as [Ho|[<-|[]]]; [auto|].
    split; [exact Hobj|]. exists cs, c. auto.
  - split; [reflexivity|]. split; simpl.
    + intros o [<-|[]]. split; [exact Hobj|]. exists cs, c. auto.
    + exists obj, cs, c. auto.
Qed.

Lemma people_step_keeps (obj : record) (c : creator) (d d' : dict)
  (o : record) (k : string) :
  people_step obj c d = Ok d' -> in_group o k d -> in_group o k d'.
Proof.
  unfold people_step.
  destruct (c_id c) as [cid|]; [|discriminate].
  destruct (c_display_name c) as [cname|]; [|discriminate].
  simpl. apply step_keeps.
Qed.

Lemma people_step_adds (obj : record) (c : creator) (d d' : dict) (k : string) :
  people_step obj c d = Ok d' -> c_id c = Some k -> in_group obj k d'.
Proof.
  unfold people_step. intros H Hk. rewrite Hk in H.
  destruct (c_display_name c) as [cname|]; [|discriminate].
  simpl in H. eapply step_adds; eauto.
Qed.

(** The dict behind a result of [aggregate_people]. *)
Lemma people_dict (self : Aggregator) (l : list group) :
  aggregate_people self = Ok l ->
  exists d,
    sort str_lt (fun o => Ok (get_sort_name o)) false (dict_values d) = Ok l /\
    keyed (fun k => k) d /\
    Forall (people_entry (objs self)) d /\
    (forall o, In o (objs self) -> people_covered o d).
Proof.
  intros H. unfold aggregate_people in H. apply bind_ok in H as (d & Hscan & Hsort).
  exists d. split; [exact Hsort|]. split; [|split].
  - revert Hscan. apply for_each_invariant; [|apply keyed_nil].
    intros obj s s' _ Hs Hb.
    apply bind_ok in Hb as ([|] & _ & Hb); [|scan_invariant].
    apply bind_ok in Hb as (cs & _ & Hb).
    revert Hb. apply for_each_invariant; [|assumption].
    clear. intros c s s' _ Hs Hb. unfold people_step in Hb.
    apply bind_ok in Hb as (cid & _ & Hb).
    apply bind_ok in Hb as (cname & _ & Hb).
    scan_invariant.
  - revert Hscan. apply for_each_invariant; [|constructor].
    intros obj s s' Hobj Hs Hb.
    apply bind_ok in Hb as ([|] & _ & Hb);
      [|inversion Hb; subst; assumption].
    apply bind_ok in Hb as (cs & Hcs & Hb).
    destruct (o_creators obj) as [cs'|] eqn:Hc; [|discriminate].
    inversion Hcs; subst cs'.
    revert Hb. apply for_each_invariant; [|assumption].
    intros c s0 s1 Hin Hs0 Hstep.
    eapply people_step_entry; eauto.
  - assert (Hall : forall o, In o ([] ++ objs self)%list -> people_covered o d);
      [|exact Hall].
    revert Hscan.
    apply (for_each_prefix _
             (fun done d => forall o, In o done -> people_covered o d));
      [|intros o []].
    intros done obj s s' Hdone Hb.
    apply bind_ok in Hb as (b & Hhas & Hb).
    unfold has_creator_ids in Hhas.
    destruct (o_creators obj) as [cs|] eqn:Hc; [|discriminate].
    simpl in Hhas. inversion Hhas; subst b; clear Hhas.
    destruct (any_creator_id cs) eqn:Hany.
    + simpl in Hb.
      assert (Hinner :
        (forall o k, in_group o k s -> in_group o k s') /\
        (forall c k, In c ([] ++ cs)%list -> c_id c = Some k ->
                     in_group obj k s')).
      { revert Hb.
        apply (for_each_prefix _
                 (fun donec d =>
                    (forall o k, in_group o k s -> in_group o k d) /\
                    (forall c k, In c donec -> c_id c = Some k ->
                                 in_group obj k d)));
          [|split; [auto | intros ? ? []]].
        intros donec c s0 s1 [Hkeep Hadd] Hstep. split.
        - intros o k Hg. eapply people_step_keeps; eauto.
        - intros c0 k Hin Hk. apply in_app_or in Hin as [Hin|[<-|[]]].
          + eapply people_step_keeps; eauto.
          + eapply people_step_adds; eauto. }
      destruct Hinner as [Hkeep Hadd].
      intros o Ho. apply in_app_or in Ho as [Ho|[<-|[]]].
      * intros cs0 c k H1 H2 H3. apply Hkeep. eapply Hdone; eauto.
      * intros cs0 c k H1 H2 H3. rewrite Hc in H1. inversion H1; subst cs0.
        eapply Hadd; eauto.
    + inversion Hb; subst s'.
      intros o Ho. apply in_app_or in Ho as [Ho|[<-|[]]]; [now apply Hdone|].
      intros cs0 c k H1 H2 H3. rewrite Hc in H1. inversion H1; subst cs0.
      rewrite (any_creator_id_In cs c k H2 H3) in Hany. discriminate.
Qed.

(** X12.  When [aggregate_people] returns, its groups are in ascending
    order of their label (no group's label is smaller than the label of a
    group before it), and every descriptor carries its key as
    ['people_id'] and its label as ['sort_name']. *)
Theorem people_result_sorted_by_label (self : Aggregator) (l : list group) :
  aggregate_people self = Ok l ->
  StronglySorted (fun g1 g2 => str_lt (g_label g2) (g_label g1) = false) l /\
  Forall (fun g =>
            get_field "people_id" g = Some (g_key g) /\
            get_field "sort_name" g = Some (g_label g)) l.
Proof.
  intros H. destruct (people_dict self l H) as (d & Hsort & Hk & He & _).
  assert (Hall : Forall (fun g =>
            get_field "people_id" g = Some (g_key g) /\
            get_field "sort_name" g = Some (g_label g)) l).
  { eapply Permutation_Forall; [symmetry; eapply sort_perm; exact Hsort|].
    unfold dict_values. apply Forall_map.
    destruct Hk as [_ Hk]. rewrite Forall_forall in *.
    intros e Hin. destruct (He e Hin) as (Hx & _). destruct (Hk e Hin) as [_ Hkey].
    unfold get_field. simpl. rewrite Hx. simpl. now rewrite Hkey. }
  split; [|exact Hall].
  apply sort_ordered in Hsort; [|apply str_lt_asym|apply str_lt_negtrans].
  simpl in Hsort. clear - Hsort Hall. revert Hall.
  induction Hsort as [|x r Hs IH Hx]; intros Hall; [constructor|].
  inversion Hall as [|? ? [_ Hkx] Hkr]; subst.
  constructor; [now apply IH|].
  rewrite Forall_forall in *. intros y Hy.
  specialize (Hx y Hy). destruct (Hkr y Hy) as [_ Hky].
  unfold get_sort_name in Hx. now rewrite Hkx, Hky in Hx.
Qed.

Lemma people_result_sorted_by_label_witness :
  exists l,
    aggregate_people
      (agg [with_creators [mkcreator (Some "Z") (Some "Zed");
                           mkcreator (Some "B") (Some "Bob")];
            with_creators [mkcreator (Some "B") (Some "Robert")]]) = Ok l /\
    StronglySorted (fun g1 g2 => str_lt (g_label g2) (g_label g1) = false) l /\
    Forall (fun g =>
              get_field "people_id" g = Some (g_key g) /\
              get_field "sort_name" g = Some (g_label g)) l.
Proof.
  eexists. split; [vm_compute; reflexivity|].
  apply (people_result_sorted_by_label
           (agg [with_creators [mkcreator (Some "Z") (Some "Zed");
                                mkcreator (Some "B") (Some "Bob")];
                 with_creators [mkcreator (Some "B") (Some "Robert")]])).
  vm_compute. reflexivity.
Defined.

(** X13.  When [aggregate_people] returns: a record is in the group of
    every id carried by one of its creators; every record of a group is an
    input record with a creator carrying the group's key as id; and the
    label of a group is the display name of some creator carrying that
    id; group keys are pairwise distinct. *)
Theorem people_groups_by_creator_id (self : Aggregator) (l : list group) :
  aggregate_people self = Ok l ->
  (forall o cs c k,
     In o (objs self) -> o_creators o = Some cs -> In c cs ->
     c_id c = Some k ->
     exists g, In g l /\ g_key g = k /\ In o (g_objects g)) /\
  (forall g o, In g l -> In o (g_objects g) ->
     In o (objs self) /\
     exists cs c,
       o_creators o = Some cs /\ In c cs /\ c_id c = Some (g_key g)) /\
  (forall g, In g l ->
     exists o cs c,
       In o (objs self) /\ o_creators o = Some cs /\ In c cs /\
       c_id c = Some (g_key g) /\ c_display_name c = Some (g_label g)) /\
  NoDup (map g_key l).
Proof.
  intros H. destruct (people_dict self l H) as (d & Hsort & Hk & He & Hc).
  apply sort_perm in Hsort.
  destruct (keyed_values d l Hk Hsort) as [_ Hn].
  destruct Hk as [_ Hk]. rewrite Forall_forall in Hk, He.
  assert (Hres : forall g, In g l -> exists k, In (k, g) d /\ g_key g = k).
  { intros g Hg. apply (Permutation_in _ Hsort) in Hg.
    apply in_map_iff in Hg as ([k g0] & <- & Hin).
    exists k. split; [exact Hin|]. now destruct (Hk _ Hin). }
  split; [|split; [|split; [|exact Hn]]].
  - intros o cs c k Ho Hcs Hin Hid.
    destruct (Hc o Ho cs c k Hcs Hin Hid) as (g & Hg & Hog).
    exists g. split; [|split; [|exact Hog]].
    + apply (Permutation_in _ (Permutation_sym Hsort)).
      apply in_map_iff. exists (k, g). auto.
    + now destruct (Hk _ Hg).
  - intros g o Hg Ho. destruct (Hres g Hg) as (k & Hin & Hkey).
    destruct (He _ Hin) as (_ & Hsound & _). simpl in Hsound.
    rewrite Hkey. now apply Hsound.
  - intros g Hg. destruct (Hres g Hg) as (k & Hin & Hkey).
    destruct (He _ Hin) as (_ & _ & Hlab). simpl in Hlab.
    now rewrite Hkey.
Qed.

Lemma people_groups_by_creator_id_witness :
  exists l,
    aggregate_people
      (agg [with_creators [mkcreator (Some "Z") (Some "Zed");
                           mkcreator (Some "B") (Some "Bob")]]) = Ok l /\
    NoDup (map g_key l).
Proof.
  eexists. split; [vm_compute; reflexivity|].
  apply (people_groups_by_creator_id
           (agg [with_creators [mkcreator (Some "Z") (Some "Zed");
                                mkcreator (Some "B") (Some "Bob")]])).
  vm_compute. reflexivity.
Defined.

(** *** [aggregate_subjects] *)

Lemma forallb_true {A : Type} (l : list A) : forallb (fun _ => true) l = true.
Proof. induction l; simpl; auto. Qed.

Lemma subjects_step_returns (sm : subject_map) (obj : record) (subj : string)
  (d : dict) :
  is_err (subjects_step sm obj subj d) = false.
Proof.
  unfold subjects_step. destruct (sm subj); [|reflexivity].
  now rewrite scan_step.
Qed.

(** X14.  [aggregate_subjects] raises exactly when some record has a
    [subjects] field without [items]; records without [subjects], unknown
    subject codes and an empty directory never make it raise. *)
Theorem subjects_raises_iff (self : Aggregator) (sm : subject_map) :
  is_err (aggregate_subjects self sm) =
  negb (forallb subjects_ok (objs self)).
Proof.
  set (body := fun (obj : record) (subjects : dict) =>
       match o_subjects obj with
       | Some sub =>
           items <- getitem (s_items sub) ;;
           for_each (subjects_step sm obj) items subjects
       | None => Ok subjects
       end).
  assert (Hb : forall obj s, is_err (body obj s) = negb (subjects_ok obj)).
  { intros obj s. unfold body, subjects_ok.
    destruct (o_subjects obj) as [sub|]; [|reflexivity].
    destruct (s_items sub) as [items|]; simpl; [|reflexivity].
    rewrite (for_each_is_err (subjects_step sm obj) (fun _ => true)).
    - now rewrite forallb_true.
    - intros c s0. apply subjects_step_returns. }
  rewrite <- (for_each_is_err body subjects_ok (objs self) Hb []).
  unfold aggregate_subjects. fold body.
  destruct (for_each body (objs self) []) as [d|e]; simpl; [|reflexivity].
  destruct (sort_pure str_lt get_sort_subject false (dict_values d))
    as (l & Hl & _).
  now rewrite Hl.
Qed.

Lemma subjects_step_entry (sm : subject_map) (l : list record) (obj : record)
  (sub : subjects) (items : list string) (subj : string) (d d' : dict) :
  In obj l -> o_subjects obj = Some sub -> s_items sub = Some items ->
  In subj items ->
  Forall (subjects_entry sm l) d -> subjects_step sm obj subj d = Ok d' ->
  Forall (subjects_entry sm l) d'.
Proof.
  intros Hobj Hsub Hitems Hin Hd H. unfold subjects_step in H.
  destruct (sm subj) as [name|] eqn:Hsm; [|inversion H; subst; exact Hd].
  revert H. apply step_Forall; [exact Hd | |].
  - intros g (Hl & Hx & Hsound). split; [exact Hl|]. split; [exact Hx|].
    simpl. intros o Ho. apply in_app_or in Ho as [Ho|[<-|[]]]; [auto|].
    split; [exact Hobj|]. exists sub, items. auto.
  - split; [exact Hsm|]. split; [reflexivity|]. simpl.
    intros o [<-|[]]. split; [exact Hobj|]. exists sub, items. auto.
Qed.

Lemma subjects_step_keeps (sm : subject_map) (obj : record) (subj : string)
  (d d' : dict) (o : record) (k : string) :
  subjects_step sm obj subj d = Ok d' -> in_group o k d -> in_group o k d'.
Proof.
  unfold subjects_step. destruct (sm subj) as [name|].
  - apply step_keeps.
  - now inversion 1.
Qed.

Lemma subjects_step_adds (sm : subject_map) (obj : record) (subj name : string)
  (d d' : dict) :
  subjects_step sm obj subj d = Ok d' -> sm subj = Some name ->
  in_group obj subj d'.
Proof.
  unfold subjects_step. intros H Hsm. rewrite Hsm in H.
  eapply step_adds; eauto.
Qed.

(** The dict behind a result of [aggregate_subjects]. *)
Lemma subjects_dict (self : Aggregator) (sm : subject_map) (l : list group) :
  aggregate_subjects self sm = Ok l ->
  exists d,
    sort str_lt (fun o => Ok (get_sort_subject o)) false (dict_values d)
    = Ok l /\
    keyed (fun k => k) d /\
    Forall (subjects_entry sm (objs self)) d /\
    (forall o, In o (objs self) -> subjects_covered sm o d).
Proof.
  intros H. unfold aggregate_subjects in H.
  apply bind_ok in H as (d & Hscan & Hsort).
  exists d. split; [exact Hsort|]. split; [|split].
  - revert Hscan. apply for_each_invariant; [|apply keyed_nil].
    intros obj s s' _ Hs Hb. destruct (o_subjects obj); [|scan_invariant].
    apply bind_ok in Hb as (items & _ & Hb).
    revert Hb. apply for_each_invariant; [|assumption].
    clear. intros subj s s' _ Hs Hb. unfold subjects_step in Hb.
    destruct (sm subj); scan_invariant.
  - revert Hscan. apply for_each_invariant; [|constructor].
    intros obj s s' Hobj Hs Hb.
    destruct (o_subjects obj) as [sub|] eqn:Hsub;
      [|inversion Hb; subst; assumption].
    apply bind_ok in Hb as (items & Hitems & Hb).
    destruct (s_items sub) as [items'|] eqn:Hi; [|discriminate].
    inversion Hitems; subst items'.
    revert Hb. apply for_each_invariant; [|assumption].
    intros subj s0 s1 Hin Hs0 Hstep.
    eapply subjects_step_entry; eauto.
  - assert (Hall : forall o, In o ([] ++ objs self)%list ->
                             subjects_covered sm o d); [|exact Hall].
    revert Hscan.
    apply (for_each_prefix _
             (fun done d => forall o, In o done -> subjects_covered sm o d));
      [|intros o []].
    intros done obj s s' Hdone Hb.
    destruct (o_subjects obj) as [sub|] eqn:Hsub.
    + apply bind_ok in Hb as (items & Hitems & Hb).
      destruct (s_items sub) as [items'|] eqn:Hi; [|discriminate].
      inversion Hitems; subst items'.
      assert (Hinner :
        (forall o k, in_group o k s -> in_group o k s') /\
        (forall code name, In code ([] ++ items)%list ->
                           sm code = Some name -> in_group obj code s')).
      { revert Hb.
        apply (for_each_prefix _
                 (fun donec d =>
                    (forall o k, in_group o k s -> in_group o k d) /\
                    (forall code name, In code donec -> sm code = Some name ->
                                       in_group obj code d)));
          [|split; [auto | intros ? ? []]].
        intros donec c s0 s1 [Hkeep Hadd] Hstep. split.
        - intros o k Hg. eapply subjects_step_keeps; eauto.
        - intros c0 name Hin Hk. apply in_app_or in Hin as [Hin|[<-|[]]].
          + eapply subjects_step_keeps; eauto.
          + eapply subjects_step_adds; eauto. }
      destruct Hinner as [Hkeep Hadd].
      intros o Ho. apply in_app_or in Ho as [Ho|[<-|[]]].
      * intros sub0 items0 code name H1 H2 H3 H4. apply Hkeep.
        eapply Hdone; eauto.
      * intros sub0 items0 code name H1 H2 H3 H4.
        rewrite Hsub in H1. inversion H1; subst sub0.
        rewrite Hi in H2. inversion H2; subst items0.
        eapply Hadd; eauto.
    + inversion Hb; subst s'.
      intros o Ho. apply in_app_or in Ho as [Ho|[<-|[]]]; [now apply Hdone|].
      intros sub0 items0 code name H1. rewrite Hsub in H1. discriminate.
Qed.

(** X15.  When [aggregate_subjects] returns: every group's label is the
    directory's name for its key, so a code the directory does not know
    forms no group; a record is in the group of every code among its
    [items] that the directory knows; every record of a group is an input
    record with the group's key among its [items]; the keys are pairwise
    distinct and the groups are in ascending order of their label. *)
Theorem subjects_groups_resolved (self : Aggregator) (sm : subject_map)
  (l : list group) :
  aggregate_subjects self sm = Ok l ->
  Forall (fun g => sm (g_key g) = Some (g_label g)) l /\
  (forall o sub items code name,
     In o (objs self) -> o_subjects o = Some sub ->
     s_items sub = Some items -> In code items -> sm code = Some name ->
     exists g,
       In g l /\ g_key g = code /\ g_label g = name /\ In o (g_objects g)) /\
  (forall g o, In g l -> In o (g_objects g) ->
     In o (objs self) /\
     exists sub items,
       o_subjects o = Some sub /\ s_items sub = Some items /\
       In (g_key g) items) /\
  NoDup (map g_key l) /\
  StronglySorted (fun g1 g2 => str_lt (g_label g2) (g_label g1) = false) l.
Proof.
  intros H. destruct (subjects_dict self sm l H) as (d & Hsort & Hk & He & Hc).
  pose proof (sort_perm _ _ _ _ _ Hsort) as Hp.
  destruct (keyed_values d l Hk Hp) as [_ Hn].
  destruct Hk as [_ Hk]. rewrite Forall_forall in Hk, He.
  assert (Hres : forall g, In g l -> exists k, In (k, g) d /\ g_key g = k).
  { intros g Hg. apply (Permutation_in _ Hp) in Hg.
    apply in_map_iff in Hg as ([k g0] & <- & Hin).
    exists k. split; [exact Hin|]. now destruct (Hk _ Hin). }
  assert (Hlab : Forall (fun g => sm (g_key g) = Some (g_label g)) l).
  { apply Forall_forall. intros g Hg. destruct (Hres g Hg) as (k & Hin & Hkey).
    destruct (He _ Hin) as (Hl & _). simpl in Hl. now rewrite Hkey. }
  split; [exact Hlab|]. split; [|split; [|split; [exact Hn|]]].
  - intros o sub items code name Ho Hsub Hitems Hin Hsm.
    destruct (Hc o Ho sub items code name Hsub Hitems Hin Hsm)
      as (g & Hg & Hog).
    exists g. destruct (Hk _ Hg) as [_ Hkey]. destruct (He _ Hg) as (Hl & _).
    simpl in *. repeat split; auto.
    + apply (Permutation_in _ (Permutation_sym Hp)).
      apply in_map_iff. exists (code, g). auto.
    + congruence.
  - intros g o Hg Ho. destruct (Hres g Hg) as (k & Hin & Hkey).
    destruct (He _ Hin) as (_ & _ & Hsound). simpl in Hsound.
    rewrite Hkey. now apply Hsound.
  - assert (Hkeys : Forall (fun g => get_sort_subject g = g_label g) l).
    { apply Forall_forall. intros g Hg.
      destruct (Hres g Hg) as (k & Hin & Hkey).
      destruct (He _ Hin) as (_ & Hx & _). simpl in Hx.
      unfold get_sort_subject, get_field. simpl. rewrite Hx. reflexivity. }
    apply sort_ordered in Hsort; [|apply str_lt_asym|apply str_lt_negtrans].
    simpl in Hsort. clear - Hsort Hkeys. revert Hkeys.
    induction Hsort as [|x r Hs IH Hx]; intros Hkeys; [constructor|].
    inversion Hkeys as [|? ? Hkx Hkr]; subst.
    constructor; [now apply IH|].
    rewrite Forall_forall in *. intros y Hy.
    rewrite <- Hkx, <- (Hkr y Hy). now apply Hx.
Qed.

Lemma subjects_groups_resolved_witness :
  exists l,
    aggregate_subjects
      (agg [with_subjects ["zzz"; "phys"]; blank; with_subjects ["phys"]])
      physics_only = Ok l /\
    Forall (fun g => physics_only (g_key g) = Some (g_label g)) l /\
    NoDup (map g_key l).
Proof.
  eexists. split; [vm_compute; reflexivity|].
  destruct (subjects_groups_resolved
              (agg [with_subjects ["zzz"; "phys"]; blank;
                    with_subjects ["phys"]])
              physics_only _ eq_refl) as (H1 & _ & _ & H4 & _).
  split; [exact H1 | exact H4].
Defined.

Example subjects_unknown_code_skipped :
  summary (aggregate_subjects
             (agg [with_subjects ["zzz"; "phys"]; blank;
                   with_subjects ["phys"]]) physics_only)
  = Ok [("phys", "Physics", 2)].
Proof. reflexivity. Qed.

(* ================================================================= *)
(** ** The string helpers *)

(** X1.  [slugify] keeps the length of its argument; its result holds no
    space and no slash; slugifying twice is slugifying once, and a string
    without space or slash is its own slug. *)
Theorem slugify_shape (s : string) :
  String.length (slugify s) = String.length s /\
  ~ In " "%char (chars (slugify s)) /\
  ~ In "/"%char (chars (slugify s)) /\
  slugify (slugify s) = slugify s /\
  (~ In " "%char (chars s) -> ~ In "/"%char (chars s) -> slugify s = s).
Proof.
  unfold slugify, replace, chars.
  induction s as [|c r (Hlen & Hsp & Hsl & Hid & Hfix)]; simpl.
  - repeat split; auto.
  - destruct (Ascii.eqb c " "%char) eqn:H1.
    { apply Ascii.eqb_eq in H1. subst c. simpl. rewrite Hlen, Hid.
      repeat split; auto.
      - intros [H|H]; [discriminate | auto].
      - intros [H|H]; [discriminate | auto].
      - intros H. exfalso. apply H. now left. }
    destruct (Ascii.eqb c "/"%char) eqn:H2.
    { apply Ascii.eqb_eq in H2. subst c. simpl. rewrite Hlen, Hid.
      repeat split; auto.
      - intros [H|H]; [discriminate | auto].
      - intros [H|H]; [discriminate | auto].
      - intros _ H. exfalso. apply H. now left. }
    simpl. rewrite H1, H2, Hlen, Hid. repeat split; auto.
    + intros [H|H]; [|auto]. subst c. discriminate.
    + intros [H|H]; [|auto]. subst c. discriminate.
    + intros Ha Hb. rewrite Hfix; tauto.
Qed.

Lemma case_not_underscore (c : ascii) :
  Ascii.eqb c underscore = false ->
  upper_char c <> underscore /\ lower_char c <> underscore.
Proof.
  destruct c as [[] [] [] [] [] [] [] []]; intros H; vm_compute in H |- *;
    split; congruence.
Qed.

Lemma split_cons (sep : ascii) (s : string) :
  exists h t, split sep s = h :: t.
Proof.
  destruct s as [|c r]; simpl; [eauto|].
  destruct (Ascii.eqb c sep); [eauto|].
  destruct (split sep r); eauto.
Qed.

Lemma make_label_from (s : string) : make_label s = label_from capitalize s.
Proof.
  unfold make_label, label_from.
  destruct (split_cons "_" s) as (h & t & ->). reflexivity.
Qed.

Lemma concat_cons_char (a : ascii) (x : string) (l : list string) :
  String.concat " " (String a x :: l) = String a (String.concat " " (x :: l)).
Proof. destruct l; reflexivity. Qed.

Lemma label_from_cons (first : string -> string) (fc : ascii -> ascii)
  (c : ascii) (r : string) :
  (forall a h, first (String a h) = String (fc a) (map_chars lower_char h)) ->
  first "" = "" ->
  label_from first (String c r) =
  if Ascii.eqb c underscore then String " " (label_from capitalize r)
  else String (fc c) (label_from (map_chars lower_char) r).
Proof.
  intros Hf H0. unfold label_from, join. simpl. fold underscore.
  destruct (split_cons underscore r) as (h & t & Hs). unfold underscore in *.
  rewrite Hs. destruct (Ascii.eqb c "_").
  - rewrite H0. reflexivity.
  - rewrite Hf. apply concat_cons_char.
Qed.

Lemma label_from_shape (s : string) :
  (String.length (label_from capitalize s) = String.length s /\
   ~ In underscore (chars (label_from capitalize s)) /\
   (~ In underscore (chars s) -> label_from capitalize s = capitalize s)) /\
  (String.length (label_from (map_chars lower_char) s) = String.length s /\
   ~ In underscore (chars (label_from (map_chars lower_char) s)) /\
   (~ In underscore (chars s) ->
    label_from (map_chars lower_char) s = map_chars lower_char s)).
Proof.
  induction s as [|c r [(Hl1 & Hu1 & Hf1) (Hl2 & Hu2 & Hf2)]].
  - unfold chars. simpl. repeat split; auto.
  - rewrite (label_from_cons capitalize upper_char) by reflexivity.
    rewrite (label_from_cons (map_chars lower_char) lower_char)
      by reflexivity.
    destruct (Ascii.eqb c underscore) eqn:Hc.
    + apply Ascii.eqb_eq in Hc. subst c. unfold chars in *. simpl.
      repeat split; try congruence.
      * intros [H|H]; [discriminate | auto].
      * intros H. exfalso. apply H. now left.
      * intros [H|H]; [discriminate | auto].
      * intros H. exfalso. apply H. now left.
    + destruct (case_not_underscore c Hc) as [Hup Hlo].
      unfold chars in *. simpl. repeat split; try congruence.
      * intros [H|H]; auto.
      * intros H. rewrite Hf2 by tauto. reflexivity.
      * intros [H|H]; auto.
      * intros H. rewrite Hf2 by tauto. reflexivity.
Qed.

(** X2.  [make_label] keeps the length of its argument; its result holds
    no underscore; on a string without underscore it is [capitalize]. *)
Theorem make_label_shape (s : string) :
  String.length (make_label s) = String.length s /\
  ~ In "_"%char (chars (make_label s)) /\
  (~ In "_"%char (chars s) -> make_label s = capitalize s).
Proof.
  rewrite make_label_from. exact (proj1 (label_from_shape s)).
Qed.
